(** * bench-compare: comparing two Criterion baselines

    A shallow embedding of [scripts/ci/bench-compare.py] and the properties
    of its four stages: the baseline loader ([find_baselines]), the
    subsystem filter ([is_gitr_bench]), the comparator and the reporter
    (both in [main]).

    Conventions of the embedding:
    - a Python [float] is a binary64 value, here a primitive [float];
      arithmetic and comparisons are the IEEE ones, except that Python's
      [/] raises [ZeroDivisionError] on a zero divisor; timings and the
      threshold are floats;
    - [round(x, 2)] is defined on the exact value of the float; the
      formatting of a float as text ([str], [:.2f], [:.0f]) is left to
      Python and is a parameter of the reporter;
    - a name of the file system, and so a key, is a [string] of bytes;
      Python sees it decoded as UTF-8 with the [surrogateescape] handler
      ([decode]): strings are compared code point by code point
      ([str_le]), and a string with an escaped byte cannot be written to a
      text file ([encodable]);
    - a [dict] from keys to timings is a [gmap string float];
    - an exception that nothing catches ends the run: fallible code
      returns in the [res] monad;
    - [os.sep] is ["/"] (the script's own literal ["gitr/"] and the keys of
      its docstrings fix the POSIX separator), and the encoding of the file
      system and of text files is UTF-8. *)

From Stdlib Require Import PrimFloat SpecFloat FloatOps FloatAxioms.
From Stdlib Require Import Ascii String.
From stdpp Require Import gmap strings list sorting pretty.

Local Open Scope string_scope.

(** ** Exceptions and the error monad *)

Inductive exn : Type :=
  | ZeroDivisionError   (* float division by zero *)
  | MalformedData       (* json.load fails, or data["mean"]["point_estimate"] is missing *)
  | ValueError.         (* list.index of an absent element *)

Inductive res (A : Type) : Type :=
  | Ok (a : A)
  | Raise (e : exn).
Arguments Ok {A} a.
Arguments Raise {A} e.

#[global] Instance res_ret : MRet res := λ A a, Ok a.
#[global] Instance res_bind : MBind res := λ A B k m,
  match m with
  | Ok a => k a
  | Raise e => Raise e
  end.

(** A [for] loop whose body may raise: the first exception ends the loop. *)
Fixpoint for_each {S X : Type} (body : S → X → res S) (xs : list X) (s : S) : res S :=
  match xs with
  | [] => Ok s
  | x :: xs' => s' ← body s x; for_each body xs' s'
  end.

(** ** Strings: [str.split], [str.join], [str.startswith], [in] *)

Definition os_sep_char : ascii := "/"%char.
Definition os_sep : string := String os_sep_char EmptyString.

(** [s.split(sep)] for a one-character separator: every occurrence of the
    separator cuts, so the result is never empty and [""] gives [[""]]. *)
Fixpoint split (sep : ascii) (s : string) : list string :=
  match s with
  | EmptyString => [EmptyString]
  | String c rest =>
      if Ascii.eqb c sep then EmptyString :: split sep rest
      else match split sep rest with
           | [] => [String c EmptyString]
           | p :: ps => String c p :: ps
           end
  end.

(** [sep.join(parts)] *)
Definition join (sep : string) (parts : list string) : string :=
  String.concat sep parts.

(** [p.startswith(pre)] *)
Definition startswith (p pre : string) : bool := String.prefix pre p.

(** [c in s] for a character [c] *)
Fixpoint str_contains (c : ascii) (s : string) : bool :=
  match s with
  | EmptyString => false
  | String c' rest => Ascii.eqb c' c || str_contains c rest
  end.

(** [l.index(x)]: the first position of [x]; [None] stands for ValueError. *)
Definition py_index (x : string) (l : list string) : option nat :=
  fst <$> list_find (λ y, y = x) l.

(** *** Strings as Python decodes them

    [os.walk] gives names decoded from the bytes of the file system as
    UTF-8 with the [surrogateescape] error handler: a well-formed sequence
    (shortest form, no surrogate, at most U+10FFFF) is its code point, and
    any other byte [b] is the lone surrogate [U+DC00 + b]. *)

Definition is_cont (b : N) : bool := ((128 <=? b) && (b <=? 191))%N.

(** The second byte of a sequence of three, after the lead [b1]. *)
Definition second_of_3 (b1 b2 : N) : bool :=
  (if b1 =? 224 then (160 <=? b2) && (b2 <=? 191)
   else if b1 =? 237 then (128 <=? b2) && (b2 <=? 159)
   else is_cont b2)%N.

(** The second byte of a sequence of four, after the lead [b1]. *)
Definition second_of_4 (b1 b2 : N) : bool :=
  (if b1 =? 240 then (144 <=? b2) && (b2 <=? 191)
   else if b1 =? 244 then (128 <=? b2) && (b2 <=? 143)
   else is_cont b2)%N.

Fixpoint decode (s : string) : list N :=
  match s with
  | EmptyString => []
  | String c1 r1 =>
      let b1 := N_of_ascii c1 in
      let escaped := ((56320 + b1)%N :: decode r1) in
      if (b1 <? 128)%N then b1 :: decode r1
      else
        match r1 with
        | EmptyString => escaped
        | String c2 r2 =>
            let b2 := N_of_ascii c2 in
            if ((194 <=? b1) && (b1 <=? 223))%N then
              if is_cont b2
              then ((b1 - 192) * 64 + (b2 - 128))%N :: decode r2
              else escaped
            else
              match r2 with
              | EmptyString => escaped
              | String c3 r3 =>
                  let b3 := N_of_ascii c3 in
                  if ((224 <=? b1) && (b1 <=? 239))%N then
                    if second_of_3 b1 b2 && is_cont b3
                    then ((b1 - 224) * 4096 + (b2 - 128) * 64 + (b3 - 128))%N
                           :: decode r3
                    else escaped
                  else
                    match r3 with
                    | EmptyString => escaped
                    | String c4 r4 =>
                        let b4 := N_of_ascii c4 in
                        if ((240 <=? b1) && (b1 <=? 244))%N
                           && second_of_4 b1 b2 && is_cont b3 && is_cont b4
                        then ((b1 - 240) * 262144 + (b2 - 128) * 4096
                              + (b3 - 128) * 64 + (b4 - 128))%N :: decode r4
                        else escaped
                    end
              end
        end
  end.

(** Python's [<=] on sequences of code points: the first difference
    decides, and a proper prefix is smaller. *)
Fixpoint code_points_le (l1 l2 : list N) : bool :=
  match l1, l2 with
  | [], _ => true
  | _ :: _, [] => false
  | x :: l1', y :: l2' =>
      match (x ?= y)%N with
      | Lt => true
      | Gt => false
      | Eq => code_points_le l1' l2'
      end
  end.

(** The strict UTF-8 encoder of a text file refuses every surrogate. *)
Definition is_surrogate (cp : N) : bool := ((55296 <=? cp) && (cp <=? 57343))%N.

(** [s] can be written to a text file: it holds no escaped byte. *)
Definition encodable (s : string) : bool :=
  forallb (λ cp, negb (is_surrogate cp)) (decode s).

(** ** Stage 2: the subsystem filter *)

Definition gitr_segment (p : string) : bool :=
  String.eqb p "gitr" || startswith p "gitr_" || startswith p "gitr/".

Definition is_gitr_bench (bench_key : string) : bool :=
  let parts := split os_sep_char bench_key in
  existsb gitr_segment parts.

(** The predicate without the separator branch, to compare with. *)
Definition gitr_segment_simple (p : string) : bool :=
  String.eqb p "gitr" || startswith p "gitr_".

Definition is_gitr_bench_simple (bench_key : string) : bool :=
  existsb gitr_segment_simple (split os_sep_char bench_key).

(** ** Stage 1: the baseline loader *)

(** What reading [estimates.json] and taking [data["mean"]["point_estimate"]]
    gives: the timing (Criterion writes it as a JSON float), or an
    exception when the file cannot be parsed or has no such field. *)
Inductive estimates_file : Type :=
  | Malformed
  | PointEstimate (v : float).

(** One triple [(root, dirs, files)] of [os.walk(criterion_dir)]: [rel] is
    [os.path.relpath(root, criterion_dir)], [estimates] the content of the
    directory's [estimates.json] (read only when [files] lists it). *)
Record walk_entry : Type := {
  rel : string;
  files : list string;
  estimates : estimates_file
}.

(** The body of the loop of [find_baselines]. *)
Definition find_baselines_step (baseline_name : string)
    (results : gmap string float) (d : walk_entry) : res (gmap string float) :=
  if decide ("estimates.json" ∈ files d) then
    let parts := split os_sep_char (rel d) in
    if decide (baseline_name ∈ parts) then
      match py_index baseline_name parts with
      | None => Raise ValueError
      | Some baseline_idx =>
          let bench_key := join os_sep (take baseline_idx parts) in
          if String.eqb bench_key "" then Ok results
          else match estimates d with
               | Malformed => Raise MalformedData
               | PointEstimate v => Ok (<[bench_key := v]> results)
               end
      end
    else Ok results
  else Ok results.

(** [os_walk] is the file system: the triples [os.walk] yields for a root. *)
Definition find_baselines (os_walk : string → list walk_entry)
    (criterion_dir baseline_name : string) : res (gmap string float) :=
  for_each (find_baselines_step baseline_name) (os_walk criterion_dir) ∅.

(** A path as [os.path.relpath] returns it has no empty segment. *)
Definition relpath_wf (r : string) : Prop :=
  Forall (λ p, p ≠ "") (split os_sep_char r).

(** ** Floats as Python has them *)

Local Open Scope float_scope.

(** [x / y]: Python raises on a zero divisor (of either sign). *)
Definition py_div (x y : float) : res float :=
  if PrimFloat.eqb y 0 then Raise ZeroDivisionError else Ok (x / y).

(** The integer nearest to [num / den], ties to the even one
    ([0 <= num], [0 < den]). *)
Definition div_half_even (num den : Z) : Z :=
  let q := (num / den)%Z in
  match (2 * (num mod den) ?= den)%Z with
  | Lt => q
  | Gt => (q + 1)%Z
  | Eq => if Z.even q then q else (q + 1)%Z
  end.

(** [round(x, 2)]: the exact value of [x] is rounded to the nearest multiple
    of 1/100 (ties to even), and that decimal is read back as the nearest
    binary64 value; infinities and NaN round to themselves, and the sign of
    [x] is kept on a zero result. *)
Definition round2 (x : float) : float :=
  match Prim2SF x with
  | S754_finite s m e =>
      let hundredths :=
        if (0 <=? e)%Z then (Zpos m * 2 ^ e * 100)%Z
        else div_half_even (Zpos m * 100) (2 ^ (- e)) in
      match hundredths with
      | Zpos n => SF2Prim (SFdiv prec emax (S754_finite s n 0) (S754_finite false 100 0))
      | _ => SF2Prim (S754_zero s)
      end
  | _ => x
  end.

(** ** Stage 3: the comparator *)

Inductive Status : Type := REGRESSION | IMPROVEMENT | OK | NEW | REMOVED.

#[global] Instance Status_eq_dec : EqDecision Status.
Proof. solve_decision. Defined.

(** One entry of the list [results]; [None] is Python's [None]. *)
Record result : Type := {
  benchmark : string;
  base_ns : option float;
  pr_ns : option float;
  pct_change : option float;
  status : Status
}.

(** Python's [<=] on [str]. *)
Definition str_le (s1 s2 : string) : Prop :=
  code_points_le (decode s1) (decode s2) = true.

#[global] Instance str_le_dec : RelDecision str_le.
Proof. intros s1 s2. unfold str_le. apply _. Defined.

(** [sorted(set(base_results.keys()) | set(pr_results.keys()))]: the keys
    are distinct, and distinct names decode to distinct sequences of code
    points, so the sorted list does not depend on the sorting algorithm. *)
Definition all_keys (base_results pr_results : gmap string float) : list string :=
  merge_sort str_le (elements (dom base_results ∪ dom pr_results)).

(** The [if]/[elif]/[else] on [pct]. *)
Definition classify (threshold pct : float) : Status :=
  if threshold <? pct then REGRESSION
  else if pct <? - threshold then IMPROVEMENT
  else OK.

(** The body of the loop over [all_keys]. *)
Definition compare_step (threshold : float)
    (base_results pr_results : gmap string float)
    (results : list result) (key : string) : res (list result) :=
  if negb (is_gitr_bench key) then Ok results
  else
    match base_results !! key, pr_results !! key with
    | None, p =>
        Ok (results ++ [ {| benchmark := key; base_ns := None; pr_ns := p;
                            pct_change := None; status := NEW |} ])%list
    | Some b, None =>
        Ok (results ++ [ {| benchmark := key; base_ns := Some b; pr_ns := None;
                            pct_change := None; status := REMOVED |} ])%list
    | Some b, Some p =>
        q ← py_div (p - b) b;
        let pct := q * 100 in
        Ok (results ++ [ {| benchmark := key; base_ns := Some b; pr_ns := Some p;
                            pct_change := Some (round2 pct);
                            status := classify threshold pct |} ])%list
    end.

Definition comparator (threshold : float)
    (base_results pr_results : gmap string float) : res (list result) :=
  for_each (compare_step threshold base_results pr_results)
           (all_keys base_results pr_results) [].

(** ** Stage 4: the reporter, and [main] *)

Inductive report_exn : Type :=
  | TypeError             (* formatting [None] as a timing *)
  | UnicodeEncodeError.   (* writing text that holds an escaped byte *)

(** The dictionary [json_output]. *)
Record json_output : Type := {
  json_has_regression : bool;
  json_threshold : float;
  json_total : nat;
  json_regressions : nat;
  json_improvements : nat;
  json_results : list result
}.

(** What is written to a file: the object given to [json.dump], or text. *)
Inductive artifact : Type :=
  | JsonDoc (j : json_output)
  | Text (s : string).

(** How a run of [main] ends. *)
Inductive outcome : Type :=
  | SysExit (code : Z) (stderr : string)
      (* a line printed to standard error, then sys.exit(code) *)
  | Uncaught (e : exn) (written : list (string * artifact))
      (* an exception nothing catches: a traceback, exit status 1 *)
  | UncaughtReport (e : report_exn) (written : list (string * artifact))
  | Finished (written : list (string * artifact)) (stdout : list string).

Definition exit_status (o : outcome) : Z :=
  match o with
  | SysExit code _ => code
  | Uncaught _ _ | UncaughtReport _ _ => 1
  | Finished _ _ => 0
  end.

Definition artifacts (o : outcome) : list (string * artifact) :=
  match o with
  | SysExit _ _ => []
  | Uncaught _ w | UncaughtReport _ w => w
  | Finished w _ => w
  end.

Record Args : Type := {
  base : string;
  pr : string;
  threshold : float;
  criterion_dir : string
}.

Definition newline : string := String (ascii_of_nat 10) EmptyString.

(** [r["status"] == s], the test of the list comprehensions. *)
Definition has_status (s : Status) (r : result) : Prop := status r = s.

#[global] Instance has_status_dec s r : Decision (has_status s r).
Proof. unfold has_status. apply _. Defined.

Section Reporter.

(** Python's own formatting of a float: [str_float x] is [f"{x}"],
    [fmt_2f x] is [f"{x:.2f}"], [fmt_0f x] is [f"{x:.0f}"]. *)
Variable str_float : float → string.
Variable fmt_2f : float → string.
Variable fmt_0f : float → string.

Definition format_ns (ns : float) : string :=
  if 1000000000 <=? ns then fmt_2f (ns / 1000000000) ++ "s"
  else if 1000000 <=? ns then fmt_2f (ns / 1000000) ++ "ms"
  else if 1000 <=? ns then fmt_2f (ns / 1000) ++ "us"
  else fmt_0f ns ++ "ns".

(** [format_ns(v)] for a field of a result: [None] has no order with a
    number, which is a TypeError. *)
Definition format_ns_field (v : option float) : report_exn + string :=
  match v with
  | Some ns => inr (format_ns ns)
  | None => inl TypeError
  end.

(** [f"{v}"] for a field of a result. *)
Definition str_field (v : option float) : string :=
  match v with
  | Some x => str_float x
  | None => "None"
  end.

Definition status_str (s : Status) : string :=
  match s with
  | REGRESSION => "REGRESSION"
  | IMPROVEMENT => "IMPROVEMENT"
  | OK => "OK"
  | NEW => "NEW"
  | REMOVED => "REMOVED"
  end.

(** The "Change" cell of the three tables and of the console lines. *)
Definition regression_change (r : result) : string :=
  "+" ++ str_field (pct_change r) ++ "%".

Definition improvement_change (r : result) : string :=
  str_field (pct_change r) ++ "%".

Definition all_results_change (r : result) : string :=
  match pct_change r with
  | Some c =>
      let sign := if 0 <? c then "+" else "" in
      sign ++ str_float c ++ "%"
  | None => status_str (status r)
  end.

Definition table_row (change : result → string) (r : result) : report_exn + string :=
  match format_ns_field (base_ns r), format_ns_field (pr_ns r) with
  | inr b, inr p =>
      inr ("| `" ++ benchmark r ++ "` | " ++ b ++ " | " ++ p ++ " | " ++ change r ++ " |")
  | inl e, _ => inl e
  | _, inl e => inl e
  end.

Definition all_results_row (r : result) : string :=
  let base_str := match base_ns r with Some ns => format_ns ns | None => "-" end in
  let pr_str := match pr_ns r with Some ns => format_ns ns | None => "-" end in
  "| `" ++ benchmark r ++ "` | " ++ base_str ++ " | " ++ pr_str ++ " | "
    ++ all_results_change r ++ " | " ++ status_str (status r) ++ " |".

Definition console_line (r : result) : string :=
  "  " ++ benchmark r ++ ": " ++ regression_change r.

(** The rows of a table, in the order of the list; the first row that
    cannot be formatted raises. *)
Fixpoint table_rows (change : result → string) (rs : list result)
    : report_exn + list string :=
  match rs with
  | [] => inr []
  | r :: rs' =>
      match table_row change r with
      | inl e => inl e
      | inr row =>
          match table_rows change rs' with
          | inl e => inl e
          | inr rows => inr (row :: rows)
          end
      end
  end.

Definition backquoted (r : result) : string := "`" ++ benchmark r ++ "`".

(** The part of [main] after the loop: the two files and the console.
    The JSON document is written with every non-ASCII character escaped, so
    its writing does not fail. The markdown file is opened, then the text
    is encoded: every key of the results is in the text (the table of all
    results), the rest being ASCII, so the writing raises
    UnicodeEncodeError exactly when a key holds an escaped byte, and it
    leaves the file empty. *)
Definition report (args : Args) (results : list result) : outcome :=
  let regressions := filter (has_status REGRESSION) results in
  let improvements := filter (has_status IMPROVEMENT) results in
  let has_regression := bool_decide (0 < length regressions)%nat in
  let json := {| json_has_regression := has_regression;
                 json_threshold := threshold args;
                 json_total := length results;
                 json_regressions := length regressions;
                 json_improvements := length improvements;
                 json_results := results |} in
  let written := [("bench-results.json", JsonDoc json)] in
  let status_emoji := if has_regression then "FAIL" else "PASS" in
  let head :=
    [ "## Benchmark Results";
      "**Threshold**: " ++ str_float (threshold args) ++ "% | **Status**: " ++ status_emoji;
      "### Summary: " ++ pretty (length results) ++ " benchmarks, "
        ++ pretty (length regressions) ++ " regressions, "
        ++ pretty (length improvements) ++ " improvements";
      "" ] in
  match table_rows regression_change regressions with
  | inl e => UncaughtReport e written
  | inr regression_rows =>
    let regression_table :=
      match regressions with
      | [] => []
      | _ => ([ "### Regressions"; "";
                "| Benchmark | Base | PR | Change |";
                "|-----------|------|-----|--------|" ]
              ++ regression_rows ++ [ "" ])%list
      end in
    match table_rows improvement_change improvements with
    | inl e => UncaughtReport e written
    | inr improvement_rows =>
      let improvement_table :=
        match improvements with
        | [] => []
        | _ => ([ "### Improvements"; "";
                  "| Benchmark | Base | PR | Change |";
                  "|-----------|------|-----|--------|" ]
                ++ improvement_rows ++ [ "" ])%list
        end in
      let new_benches := filter (has_status NEW) results in
      let removed_benches := filter (has_status REMOVED) results in
      let new_lines :=
        match new_benches with
        | [] => []
        | _ => [ "**New benchmarks**: " ++ join ", " (map backquoted new_benches); "" ]
        end in
      let removed_lines :=
        match removed_benches with
        | [] => []
        | _ => [ "**Removed benchmarks**: " ++ join ", " (map backquoted removed_benches); "" ]
        end in
      let details :=
        ([ "<details>"; "<summary>All Results</summary>"; "";
           "| Benchmark | Base | PR | Change | Status |";
           "|-----------|------|-----|--------|--------|" ]
         ++ map all_results_row results
         ++ [ ""; "</details>"; "" ])%list in
      let lines :=
        (head ++ regression_table ++ improvement_table
              ++ new_lines ++ removed_lines ++ details)%list in
      let md_content := join newline lines in
      let summary :=
        [ "Compared " ++ pretty (length results) ++ " gitr benchmarks (threshold: "
            ++ str_float (threshold args) ++ "%)";
          "  Regressions:  " ++ pretty (length regressions);
          "  Improvements: " ++ pretty (length improvements) ] in
      let regressed :=
        match regressions with
        | [] => []
        | _ => (newline ++ "Regressed benchmarks:") :: map console_line regressions
        end in
      let stdout := (summary ++ regressed)%list in
      if forallb encodable (map benchmark results)
      then Finished (written ++ [("bench-results.md", Text md_content)])%list stdout
      else UncaughtReport UnicodeEncodeError
             (written ++ [("bench-results.md", Text "")])%list
    end
  end.

Definition main (os_walk : string → list walk_entry) (args : Args) : outcome :=
  match find_baselines os_walk (criterion_dir args) (base args) with
  | Raise e => Uncaught e []
  | Ok base_results =>
    match find_baselines os_walk (criterion_dir args) (pr args) with
    | Raise e => Uncaught e []
    | Ok pr_results =>
      if decide (base_results = ∅) then
        SysExit 1 ("ERROR: No base baseline '" ++ base args ++ "' found in "
                     ++ criterion_dir args)
      else if decide (pr_results = ∅) then
        SysExit 1 ("ERROR: No PR baseline '" ++ pr args ++ "' found in "
                     ++ criterion_dir args)
      else
        match comparator (threshold args) base_results pr_results with
        | Raise e => Uncaught e []
        | Ok results => report args results
        end
    end
  end.

End Reporter.

(** ** The order of the specification

    The specification orders identities lexicographically over their
    sequences of segments; [seg_lex_le] is that order, each segment compared
    character by character. It is stated here to be compared with the order
    of [all_keys], which sorts the joined keys. *)
Fixpoint seg_lex_le (l1 l2 : list string) : bool :=
  match l1, l2 with
  | [], _ => true
  | _ :: _, [] => false
  | x :: l1', y :: l2' =>
      match String.compare x y with
      | Lt => true
      | Gt => false
      | Eq => seg_lex_le l1' l2'
      end
  end.

Definition identity_le (key1 key2 : string) : Prop :=
  seg_lex_le (split os_sep_char key1) (split os_sep_char key2) = true.


(** ** Auxiliary definitions for the proofs *)

(** The entry that the loop of [main] appends for a key that passes the
    filter, when the division does not raise. *)
Definition entry_of (threshold : float)
    (base_results pr_results : gmap string float) (key : string) : result :=
  match base_results !! key, pr_results !! key with
  | None, p =>
      {| benchmark := key; base_ns := None; pr_ns := p;
         pct_change := None; status := NEW |}
  | Some b, None =>
      {| benchmark := key; base_ns := Some b; pr_ns := None;
         pct_change := None; status := REMOVED |}
  | Some b, Some p =>
      let pct := (p - b) / b * 100 in
      {| benchmark := key; base_ns := Some b; pr_ns := Some p;
         pct_change := Some (round2 pct); status := classify threshold pct |}
  end.

(** The key is in both snapshots and its base timing is zero. *)
Definition zero_base (base_results pr_results : gmap string float) (key : string) : bool :=
  match base_results !! key, pr_results !! key with
  | Some b, Some _ => PrimFloat.eqb b 0
  | _, _ => false
  end.

(** The key passes the subsystem filter. *)
Definition passes (key : string) : Prop := is_gitr_bench key = true.

#[global] Instance passes_dec key : Decision (passes key).
Proof. unfold passes. apply _. Defined.

(** Sample inputs. *)
Definition sample_entry : walk_entry :=
  {| rel := "status/gitr/small/main/new";
     files := ["benchmark.json"; "estimates.json"];
     estimates := PointEstimate 1500 |}.

Definition sample_tree (criterion_dir : string) : list walk_entry :=
  [ {| rel := "."; files := ["report"]; estimates := Malformed |};
    {| rel := "status/gitr/small/main"; files := ["estimates.json"];
       estimates := PointEstimate 100 |};
    {| rel := "status/gitr/small/pr"; files := ["estimates.json"];
       estimates := PointEstimate 106 |};
    {| rel := "status/git/small/main"; files := ["estimates.json"];
       estimates := PointEstimate 0 |};
    {| rel := "status/git/small/pr"; files := ["estimates.json"];
       estimates := PointEstimate 90 |} ].

Definition sample_base : gmap string float :=
  <["status/git/small" := 0]> (<["status/gitr/small" := 100]> ∅).

Definition sample_pr : gmap string float :=
  <["status/git/small" := 90]> (<["status/gitr/small" := 106]> ∅).

Definition sample_log : gmap string float :=
  <["log/gitr" := 100]> (<["log-graph/gitr" := 200]> ∅).

Definition sample_git_only_base : gmap string float := {[ "status/git/small" := 0 ]}.
Definition sample_git_only_pr : gmap string float := {[ "status/git/small" := 90 ]}.

Definition sample_zero_base : gmap string float := {[ "init/gitr" := 0 ]}.
Definition sample_zero_pr : gmap string float := {[ "init/gitr" := 250 ]}.

Definition sample_git_only_tree (criterion_dir : string) : list walk_entry :=
  [ {| rel := "status/git/small/main"; files := ["estimates.json"];
       estimates := PointEstimate 0 |};
    {| rel := "status/git/small/pr"; files := ["estimates.json"];
       estimates := PointEstimate 90 |} ].

Definition sample_zero_tree (criterion_dir : string) : list walk_entry :=
  [ {| rel := "init/gitr/main"; files := ["estimates.json"];
       estimates := PointEstimate 0 |};
    {| rel := "init/gitr/pr"; files := ["estimates.json"];
       estimates := PointEstimate 250 |} ].

Definition sample_args : Args :=
  {| base := "main"; pr := "pr"; threshold := 5; criterion_dir := "target/criterion" |}.

(** A formatter to run the reporter with: it prints no digit. *)
Definition no_digits (x : float) : string := "#".

Definition sample_args_missing : Args :=
  {| base := "main"; pr := "feature"; threshold := 5; criterion_dir := "target/criterion" |}.

(** Only the reference implementation was measured. *)
Definition sample_git_tree (criterion_dir : string) : list walk_entry :=
  [ {| rel := "status/git/small/main"; files := ["estimates.json"];
       estimates := PointEstimate 80 |};
    {| rel := "status/git/small/pr"; files := ["estimates.json"];
       estimates := PointEstimate 90 |} ].

Definition sample_git_base : gmap string float := {[ "status/git/small" := 80 ]}.
Definition sample_git_pr : gmap string float := {[ "status/git/small" := 90 ]}.

(** ** Auxiliary definitions for the further properties *)

(** Directory [d] makes the loader record a timing under [key] for the
    baseline: it lists the data file, and [key], not empty, joins the
    segments of its path before the first occurrence of the baseline
    name. *)
Definition records (baseline_name : string) (d : walk_entry) (key : string) : Prop :=
  "estimates.json" ∈ files d
  ∧ ∃ pre post,
      split os_sep_char (rel d) = (pre ++ baseline_name :: post)%list
      ∧ (baseline_name ∉ pre) ∧ key = join os_sep pre ∧ key ≠ "".

(** A tree in which the same benchmark was measured twice for the baseline,
    beside a broken file of another baseline. *)
Definition sample_twice_tree (criterion_dir : string) : list walk_entry :=
  [ {| rel := "init/gitr/main"; files := ["estimates.json"];
       estimates := PointEstimate 300 |};
    {| rel := "init/gitr/old"; files := ["estimates.json"];
       estimates := Malformed |};
    {| rel := "init/gitr/main/new"; files := ["estimates.json"];
       estimates := PointEstimate 250 |} ].

Definition sample_broken_tree (criterion_dir : string) : list walk_entry :=
  [ {| rel := "init/gitr/main"; files := ["estimates.json"];
       estimates := PointEstimate 300 |};
    {| rel := "init/gitr/pr"; files := ["estimates.json"];
       estimates := Malformed |} ].

Definition sample_twice_snapshot : gmap string float := {[ "init/gitr" := 250 ]}.

Definition sample_nan_base : gmap string float := {[ "init/gitr" := nan ]}.


(** The lines of one table of the markdown text, given its rows: none when
    there is no row. *)
Definition table_lines (title : string) (rows : list string) : list string :=
  match rows with
  | [] => []
  | _ => ([ title; "";
            "| Benchmark | Base | PR | Change |";
            "|-----------|------|-----|--------|" ]
          ++ rows ++ [ "" ])%list
  end.

(** The line that names the results of a list, and the empty line after
    it: none when the list is empty. *)
Definition names_lines (label : string) (rs : list result) : list string :=
  match rs with
  | [] => []
  | _ => [ label ++ join ", " (map backquoted rs); "" ]
  end.

(** The console lines after the summary. *)
Definition regressed_lines (str_float : float → string) (rs : list result) : list string :=
  match rs with
  | [] => []
  | _ => (newline ++ "Regressed benchmarks:") :: map (console_line str_float) rs
  end.

Definition sample_partial_base : gmap string float :=
  <["init/gitr" := 0]> (<["a/gitr" := 1]> ∅).

(** Nothing was measured for the base, and the file of the candidate is
    broken. *)
Definition sample_pr_broken_tree (criterion_dir : string) : list walk_entry :=
  [ {| rel := "init/gitr/pr"; files := ["estimates.json"];
       estimates := Malformed |} ].

Definition details_head : list string :=
  [ "<details>"; "<summary>All Results</summary>"; "";
    "| Benchmark | Base | PR | Change | Status |";
    "|-----------|------|-----|--------|--------|" ].

(** The bytes Python writes back for a code point of a decoded name
    ([os.fsencode]): UTF-8, an escaped byte being itself again. *)
Definition byte_string (bs : list N) : string :=
  fold_right (λ b s, String (ascii_of_N b) s) EmptyString bs.

Definition encode_cp (cp : N) : list N :=
  (if cp <? 128 then [cp]
   else if cp <? 2048 then [192 + cp / 64; 128 + cp mod 64]
   else if (56448 <=? cp) && (cp <=? 56575) then [cp - 56320]
   else if cp <? 65536 then
     [224 + cp / 4096; 128 + (cp / 64) mod 64; 128 + cp mod 64]
   else
     [240 + cp / 262144; 128 + (cp / 4096) mod 64; 128 + (cp / 64) mod 64;
      128 + cp mod 64])%N.

Definition encode (cps : list N) : string :=
  byte_string (concat (map encode_cp cps)).
(** * Properties *)

(** ** Strings *)

Lemma split_not_nil sep s : split sep s ≠ [].
Proof.
  destruct s as [|c rest]; simpl; [done|].
  destruct (Ascii.eqb c sep); [done|].
  destruct (split sep rest); done.
Qed.

Lemma split_no_sep sep s :
  Forall (λ p, str_contains sep p = false) (split sep s).
Proof.
  induction s as [|c rest IH]; simpl.
  - by constructor.
  - destruct (Ascii.eqb c sep) eqn:Hc.
    + by constructor.
    + destruct (split sep rest) as [|p ps].
      * constructor; [|done]. simpl. by rewrite Hc.
      * inversion IH as [|? ? Hp Hps]; subst.
        constructor; [|done]. simpl. by rewrite Hc.
Qed.

Lemma append_cons c (a r : string) : (String c a ++ r)%string = String c (a ++ r).
Proof. reflexivity. Qed.

Lemma append_nil (r : string) : ("" ++ r)%string = r.
Proof. reflexivity. Qed.

Lemma prefix_app_iff (a b : string) :
  String.prefix a b = true ↔ ∃ r, b = (a ++ r)%string.
Proof.
  revert b. induction a as [|c a IH]; intros b.
  - split; [intros _; by exists b | intros _; by destruct b].
  - destruct b as [|c' b]; simpl.
    + split; [done | intros [r Hr]; done].
    + destruct (ascii_dec c c') as [->|Hne].
      * rewrite IH. split; intros [r Hr]; exists r;
          rewrite ?append_cons in *; congruence.
      * split; [done | intros [r Hr]; rewrite append_cons in Hr; congruence].
Qed.

(** A segment without separator does not start with ["gitr/"]. *)
Lemma no_sep_not_gitr_slash p :
  str_contains os_sep_char p = false → startswith p "gitr/" = false.
Proof.
  intros Hp. destruct (startswith p "gitr/") eqn:Hs; [|done].
  apply prefix_app_iff in Hs as [r ->].
  simpl in Hp. done.
Qed.

Lemma split_segment_not_gitr_slash key p :
  p ∈ split os_sep_char key → startswith p "gitr/" = false.
Proof.
  intros Hp. apply no_sep_not_gitr_slash.
  by apply (proj1 (Forall_forall _ _) (split_no_sep os_sep_char key)).
Qed.

Lemma existsb_ext_in {A} (f g : A → bool) (l : list A) :
  (∀ x, x ∈ l → f x = g x) → existsb f l = existsb g l.
Proof.
  induction l as [|x l IH]; intros H; simpl; [done|].
  rewrite H by left. rewrite IH; [done|]. intros y Hy. apply H. by right.
Qed.

Lemma is_gitr_bench_simple_eq key :
  is_gitr_bench key = is_gitr_bench_simple key.
Proof.
  unfold is_gitr_bench, is_gitr_bench_simple.
  apply existsb_ext_in. intros p Hp.
  unfold gitr_segment, gitr_segment_simple.
  rewrite (split_segment_not_gitr_slash key p Hp). apply orb_false_r.
Qed.

Lemma split_cons_no_sep c s :
  Ascii.eqb c os_sep_char = false →
  split os_sep_char (String c s) =
    match split os_sep_char s with
    | [] => [String c EmptyString]
    | p :: ps => String c p :: ps
    end.
Proof. intros Hc. simpl. by rewrite Hc. Qed.

Lemma split_app_no_sep (p rest : string) :
  str_contains os_sep_char p = false →
  split os_sep_char (p ++ rest) =
    match split os_sep_char rest with
    | [] => [p]
    | q :: qs => (p ++ q)%string :: qs
    end.
Proof.
  induction p as [|c p IH]; intros Hp.
  - rewrite append_nil. destruct (split os_sep_char rest) eqn:E; [|done].
    by apply split_not_nil in E.
  - simpl in Hp. apply orb_false_iff in Hp as [Hc Hp].
    rewrite append_cons, split_cons_no_sep by done.
    rewrite IH by done.
    destruct (split os_sep_char rest) eqn:E; [|done].
    by apply split_not_nil in E.
Qed.

Lemma string_app_empty_r (p : string) : (p ++ "")%string = p.
Proof. induction p as [|c p IH]; [done | by rewrite append_cons, IH]. Qed.

(** Splitting a joined identity gives its segments back. *)
Lemma split_join (parts : list string) :
  parts ≠ [] →
  Forall (λ p, str_contains os_sep_char p = false) parts →
  split os_sep_char (join os_sep parts) = parts.
Proof.
  induction parts as [|p parts IH]; intros Hne Hall; [done|].
  inversion Hall as [|? ? Hp Hps]; subst.
  destruct parts as [|q parts].
  - simpl. rewrite <- (string_app_empty_r p) at 1.
    rewrite split_app_no_sep by done. simpl. by rewrite string_app_empty_r.
  - change (join os_sep (p :: q :: parts))
      with (p ++ String os_sep_char (join os_sep (q :: parts)))%string.
    rewrite split_app_no_sep by done.
    change (split os_sep_char (String os_sep_char (join os_sep (q :: parts))))
      with (EmptyString :: split os_sep_char (join os_sep (q :: parts))).
    cbv beta iota. rewrite string_app_empty_r. by rewrite IH.
Qed.

Lemma join_cons_not_empty (p : string) (parts : list string) :
  p ≠ "" → join os_sep (p :: parts) ≠ "".
Proof.
  intros Hp. destruct p as [|c p]; [done|].
  destruct parts; simpl; done.
Qed.

Lemma py_index_first (x : string) (pre post : list string) :
  x ∉ pre → py_index x (pre ++ x :: post) = Some (length pre).
Proof.
  unfold py_index. induction pre as [|a pre IH]; intros Hx; simpl.
  - by rewrite decide_True.
  - apply not_elem_of_cons in Hx as [Hne Hx].
    rewrite decide_False by done.
    specialize (IH Hx).
    destruct (list_find (λ y, y = x) (pre ++ x :: post)) as [[i y]|]; simpl in *;
      congruence.
Qed.

(** ** The subsystem filter *)

(** Claim C4. [is_gitr_bench] is a function of the key alone, and it is true
    exactly when some segment of the key equals ["gitr"], or begins with
    ["gitr_"], or begins with ["gitr/"] (comparisons of characters, hence
    case-sensitive). A key none of whose segments has one of these three
    shapes is rejected, whatever else the segments contain: ["gitrX"],
    ["ungitr"] and ["Gitr"] do not match. *)
Theorem is_gitr_bench_segments (bench_key : string) :
  (is_gitr_bench bench_key = true ↔
     ∃ p, p ∈ split os_sep_char bench_key ∧
          (p = "gitr" ∨ (∃ rest, p = "gitr_" ++ rest) ∨ (∃ rest, p = "gitr/" ++ rest)))
  ∧ ((∀ p, p ∈ split os_sep_char bench_key →
           p ≠ "gitr" ∧ (∀ rest, p ≠ "gitr_" ++ rest) ∧ (∀ rest, p ≠ "gitr/" ++ rest)) →
     is_gitr_bench bench_key = false)
  ∧ is_gitr_bench "status/gitrX/small" = false
  ∧ is_gitr_bench "status/ungitr/small" = false
  ∧ is_gitr_bench "status/Gitr/small" = false.
Proof.
  assert (Hiff : is_gitr_bench bench_key = true ↔
     ∃ p, p ∈ split os_sep_char bench_key ∧
          (p = "gitr" ∨ (∃ rest, p = "gitr_" ++ rest) ∨ (∃ rest, p = "gitr/" ++ rest))).
  { unfold is_gitr_bench. rewrite existsb_exists.
    split.
    - intros (p & Hin & Hp). exists p. split; [by apply list_elem_of_In|].
      unfold gitr_segment, startswith in Hp.
      apply orb_true_iff in Hp as [Hp|Hp]; [apply orb_true_iff in Hp as [Hp|Hp]|].
      + left. by apply String.eqb_eq.
      + right; left. by apply prefix_app_iff.
      + right; right. by apply prefix_app_iff.
    - intros (p & Hin & Hp). exists p. split; [by apply list_elem_of_In|].
      unfold gitr_segment, startswith.
      destruct Hp as [->|[Hp|Hp]].
      + done.
      + apply prefix_app_iff in Hp. rewrite Hp. by rewrite orb_true_r.
      + apply prefix_app_iff in Hp. rewrite Hp. by rewrite orb_true_r. }
  split; [exact Hiff|]. split; [|done].
  intros Hnone. apply not_true_is_false. intros E.
  apply Hiff in E as (p & Hin & Hp).
  destruct (Hnone p Hin) as (H1 & H2 & H3).
  destruct Hp as [?|[[rest ?]|[rest ?]]]; [done| by destruct (H2 rest) | by destruct (H3 rest)].
Qed.

Lemma is_gitr_bench_segments_witness :
  is_gitr_bench "cat-file/gitr_-p/small" = true.
Proof.
  apply (is_gitr_bench_segments "cat-file/gitr_-p/small").
  exists "gitr_-p". split.
  - vm_compute. apply list_elem_of_In. simpl. tauto.
  - right; left. by exists "-p".
Defined.

(** ** The loader *)

Lemma find_baselines_step_not_listed baseline_name results d :
  "estimates.json" ∉ files d →
  find_baselines_step baseline_name results d = Ok results.
Proof. intros H. unfold find_baselines_step. by rewrite decide_False. Qed.

(** The body of the loop on a directory that lists [estimates.json], with
    the segments of its relative path: when the baseline name is not a
    segment the snapshot is left as it is; otherwise, with [pre] the
    segments before the first occurrence of the baseline name, the snapshot
    is left as it is when [pre] is empty, and else the point estimate of
    the file is put under the key that joins [pre], a key whose segments
    are [pre] again. *)
Lemma find_baselines_step_identity
    (baseline_name : string) (results : gmap string float) (d : walk_entry) :
  "estimates.json" ∈ files d →
  relpath_wf (rel d) →
  let parts := split os_sep_char (rel d) in
  (baseline_name ∉ parts → find_baselines_step baseline_name results d = Ok results)
  ∧ (∀ pre post, parts = (pre ++ baseline_name :: post)%list → baseline_name ∉ pre →
       (pre = [] → find_baselines_step baseline_name results d = Ok results)
       ∧ (pre ≠ [] →
            split os_sep_char (join os_sep pre) = pre
            ∧ ∀ v, estimates d = PointEstimate v →
                find_baselines_step baseline_name results d
                = Ok (<[join os_sep pre := v]> results))).
Proof.
  intros Hfile Hwf parts. split.
  - intros Hnot. unfold find_baselines_step.
    rewrite decide_True by done. fold parts. by rewrite decide_False.
  - intros pre post Hparts Hpre.
    assert (Hin : baseline_name ∈ parts).
    { rewrite Hparts. apply elem_of_app. right. by left. }
    assert (Hstep : find_baselines_step baseline_name results d =
              let bench_key := join os_sep pre in
              if String.eqb bench_key "" then Ok results
              else match estimates d with
                   | Malformed => Raise MalformedData
                   | PointEstimate v => Ok (<[bench_key := v]> results)
                   end).
    { unfold find_baselines_step. rewrite decide_True by done. fold parts.
      rewrite decide_True by done. rewrite Hparts.
      rewrite py_index_first by done.
      by rewrite take_app_length. }
    split.
    + intros ->. by rewrite Hstep.
    + intros Hne. destruct pre as [|p pre']; [done|].
      assert (Hp : p ≠ "").
      { unfold relpath_wf in Hwf. fold parts in Hwf. rewrite Hparts in Hwf.
        by inversion Hwf. }
      split.
      * apply split_join; [done|].
        pose proof (split_no_sep os_sep_char (rel d)) as Hns.
        fold parts in Hns. rewrite Hparts in Hns.
        by apply Forall_app in Hns as [Hns _].
      * intros v Hv. rewrite Hstep. cbv zeta.
        pose proof (join_cons_not_empty p pre' Hp) as Hj.
        apply String.eqb_neq in Hj. rewrite Hj. by rewrite Hv.
Qed.

Lemma find_baselines_step_identity_example :
  find_baselines_step "main" ∅ sample_entry = Ok (<["status/gitr/small" := 1500]> ∅).
Proof.
  refine (proj2 (proj2 (proj2 (find_baselines_step_identity "main" ∅ sample_entry _ _)
            ["status"; "gitr"; "small"] ["new"] _ _) _) 1500 _).
  - vm_compute. apply list_elem_of_In. simpl. tauto.
  - unfold relpath_wf. vm_compute. repeat constructor; done.
  - reflexivity.
  - intros H. apply list_elem_of_In in H. simpl in H. intuition discriminate.
  - done.
  - reflexivity.
Defined.

Lemma sample_tree_base :
  find_baselines sample_tree "target/criterion" "main" = Ok sample_base.
Proof. vm_compute. reflexivity. Qed.

Lemma sample_tree_pr :
  find_baselines sample_tree "target/criterion" "pr" = Ok sample_pr.
Proof. vm_compute. reflexivity. Qed.


(** ** The order on keys *)

Lemma code_points_le_trans (l1 l2 l3 : list N) :
  code_points_le l1 l2 = true → code_points_le l2 l3 = true →
  code_points_le l1 l3 = true.
Proof.
  revert l2 l3. induction l1 as [|x l1 IH]; intros [|y l2] [|z l3]; simpl; try done.
  destruct (N.compare_spec x y), (N.compare_spec y z), (N.compare_spec x z);
    try done; try lia.
  apply IH.
Qed.

Lemma code_points_le_total (l1 l2 : list N) :
  code_points_le l1 l2 = true ∨ code_points_le l2 l1 = true.
Proof.
  revert l2. induction l1 as [|x l1 IH]; intros [|y l2]; simpl; auto.
  destruct (N.compare_spec x y), (N.compare_spec y x); auto; lia.
Qed.

#[global] Instance str_le_trans : Transitive str_le.
Proof. intros s1 s2 s3. apply code_points_le_trans. Qed.

#[global] Instance str_le_total : Total str_le.
Proof. intros s1 s2. apply code_points_le_total. Qed.

Lemma StronglySorted_filter {A} (R : relation A) (P : A → Prop)
    `{∀ x, Decision (P x)} (l : list A) :
  StronglySorted R l → StronglySorted R (filter P l).
Proof.
  induction l as [|x l IH]; intros Hs; [constructor|].
  apply StronglySorted_cons in Hs as [Hx Hl].
  rewrite filter_cons. destruct (decide (P x)); [|by apply IH].
  apply StronglySorted_cons. split; [|by apply IH].
  apply Forall_forall. intros y Hy. apply list_elem_of_filter in Hy as [_ Hy].
  by apply (proj1 (Forall_forall _ _) Hx).
Qed.

Lemma elem_of_all_keys (base_results pr_results : gmap string float) key :
  key ∈ all_keys base_results pr_results ↔ key ∈ dom base_results ∪ dom pr_results.
Proof.
  unfold all_keys. rewrite merge_sort_Permutation. apply elem_of_elements.
Qed.

Lemma NoDup_all_keys (base_results pr_results : gmap string float) :
  NoDup (all_keys base_results pr_results).
Proof.
  unfold all_keys. rewrite merge_sort_Permutation. apply NoDup_elements.
Qed.

Lemma StronglySorted_all_keys (base_results pr_results : gmap string float) :
  StronglySorted str_le (all_keys base_results pr_results).
Proof. unfold all_keys. apply StronglySorted_merge_sort; apply _. Qed.

(** ** Floats: the facts about comparisons that the classification needs *)

Lemma Prim2SF_zero : Prim2SF 0 = S754_zero false.
Proof. reflexivity. Qed.

Ltac to_spec_float :=
  rewrite ?ltb_spec, ?leb_spec, ?FloatAxioms.eqb_spec, ?opp_spec, ?Prim2SF_zero in *.

Lemma float_eqb_not_ltb (x y : float) :
  (x =? y) = true → (x <? y) = false.
Proof.
  to_spec_float. unfold SFeqb, SFltb.
  destruct (SFcompare (Prim2SF x) (Prim2SF y)) as [[]|]; done.
Qed.

Lemma SFcompare_Eq_sym (x y : spec_float) :
  SFcompare x y = Some Eq → SFcompare y x = Some Eq.
Proof.
  destruct x as [[]|[]| |[] mx ex], y as [[]|[]| |[] my ey]; simpl; try done;
    change (PosDef.Pos.compare_cont Eq mx my) with (Pos.compare mx my);
    change (PosDef.Pos.compare_cont Eq my mx) with (Pos.compare my mx);
    destruct (Z.compare_spec ex ey) as [->|?|?]; try done;
    destruct (Pos.compare_spec mx my) as [->|?|?]; try done;
    intros _; by rewrite Z.compare_refl, Pos.compare_refl.
Qed.

Lemma float_eqb_not_gtb (x y : float) :
  (x =? y) = true → (y <? x) = false.
Proof.
  to_spec_float. unfold SFeqb, SFltb. intros H.
  destruct (SFcompare (Prim2SF x) (Prim2SF y)) as [[]|] eqn:E; try done.
  by rewrite (SFcompare_Eq_sym _ _ E).
Qed.

(** With a threshold that is not negative, a change below [-threshold] is
    not above [threshold]. *)
Lemma float_below_neg_not_above (threshold pct : float) :
  (0 <=? threshold) = true → (pct <? - threshold) = true → (threshold <? pct) = false.
Proof.
  to_spec_float.
  destruct (Prim2SF threshold) as [[]|[]| |[] mt et];
    destruct (Prim2SF pct) as [[]|[]| |[] mp ep]; simpl; done.
Qed.

Lemma float_eq_threshold_not_below (threshold pct : float) :
  (0 <=? threshold) = true → (pct =? threshold) = true → (pct <? - threshold) = false.
Proof.
  to_spec_float.
  destruct (Prim2SF threshold) as [[]|[]| |[] mt et];
    destruct (Prim2SF pct) as [[]|[]| |[] mp ep]; simpl; done.
Qed.

Lemma float_eq_neg_threshold_not_above (threshold pct : float) :
  (0 <=? threshold) = true → (pct =? - threshold) = true → (threshold <? pct) = false.
Proof.
  to_spec_float.
  destruct (Prim2SF threshold) as [[]|[]| |[] mt et];
    destruct (Prim2SF pct) as [[]|[]| |[] mp ep]; simpl; done.
Qed.

(** ** Decoding loses nothing *)

Lemma N_of_ascii_lt (c : ascii) : (N_of_ascii c < 256)%N.
Proof. apply N_ascii_bounded. Qed.

Lemma byte_string_cons (b : N) (bs : list N) :
  byte_string (b :: bs) = String (ascii_of_N b) (byte_string bs).
Proof. reflexivity. Qed.

Lemma byte_string_app (l1 l2 : list N) :
  byte_string (l1 ++ l2) = (byte_string l1 ++ byte_string l2)%string.
Proof.
  induction l1 as [|b l1 IH]; [done|].
  cbn [app]. by rewrite !byte_string_cons, append_cons, IH.
Qed.

Ltac bool_to_prop :=
  repeat match goal with
  | H : (_ && _) = true |- _ => apply andb_true_iff in H as [? ?]
  | H : (_ && _) = false |- _ => apply andb_false_iff in H
  | H : (_ <? _)%N = true |- _ => apply N.ltb_lt in H
  | H : (_ <? _)%N = false |- _ => apply N.ltb_ge in H
  | H : (_ <=? _)%N = true |- _ => apply N.leb_le in H
  | H : (_ <=? _)%N = false |- _ => apply N.leb_gt in H
  | H : (_ =? _)%N = true |- _ => apply N.eqb_eq in H
  | H : (_ =? _)%N = false |- _ => apply N.eqb_neq in H
  end.

Ltac div_mod_lia := zify; Z.to_euclidean_division_equations; lia.

Lemma encode_cp_1 (b : N) : (b < 128)%N → encode_cp b = [b].
Proof. intros H. unfold encode_cp. by destruct (N.ltb_spec b 128); [|lia]. Qed.

Lemma encode_cp_escaped (b : N) :
  (128 <= b < 256)%N → encode_cp (56320 + b) = [b].
Proof.
  intros H. unfold encode_cp.
  destruct (N.ltb_spec (56320 + b) 128); [lia|].
  destruct (N.ltb_spec (56320 + b) 2048); [lia|].
  destruct (N.leb_spec 56448 (56320 + b)); [|lia].
  destruct (N.leb_spec (56320 + b) 56575); [|lia].
  simpl. f_equal. lia.
Qed.

Lemma encode_cp_2 (b1 b2 : N) :
  (194 <= b1 <= 223)%N → (128 <= b2 <= 191)%N →
  encode_cp ((b1 - 192) * 64 + (b2 - 128)) = [b1; b2].
Proof.
  intros H1 H2. unfold encode_cp.
  destruct (N.ltb_spec ((b1 - 192) * 64 + (b2 - 128)) 128); [lia|].
  destruct (N.ltb_spec ((b1 - 192) * 64 + (b2 - 128)) 2048); [|lia].
  f_equal; [|f_equal]; div_mod_lia.
Qed.

Lemma encode_cp_3 (b1 b2 b3 : N) :
  (224 <= b1 <= 239)%N → second_of_3 b1 b2 = true → is_cont b3 = true →
  encode_cp ((b1 - 224) * 4096 + (b2 - 128) * 64 + (b3 - 128)) = [b1; b2; b3].
Proof.
  intros H1 H2 H3. unfold second_of_3, is_cont in *.
  assert (Hb2 : (128 <= b2 <= 191)%N
                ∧ (b1 = 224 → 160 <= b2)%N ∧ (b1 = 237 → b2 <= 159)%N).
  { destruct (N.eqb_spec b1 224); [bool_to_prop; lia|].
    destruct (N.eqb_spec b1 237); bool_to_prop; lia. }
  clear H2. bool_to_prop. unfold encode_cp.
  set (cp := ((b1 - 224) * 4096 + (b2 - 128) * 64 + (b3 - 128))%N).
  assert (Hcp : (2048 <= cp < 65536)%N ∧ ¬ (56448 <= cp <= 56575)%N) by (subst cp; lia).
  destruct (N.ltb_spec cp 128); [lia|].
  destruct (N.ltb_spec cp 2048); [lia|].
  destruct (N.leb_spec 56448 cp), (N.leb_spec cp 56575); try lia; simpl;
    (destruct (N.ltb_spec cp 65536); [|lia]);
    subst cp; (f_equal; [|f_equal; [|f_equal]]); div_mod_lia.
Qed.

Lemma encode_cp_4 (b1 b2 b3 b4 : N) :
  (240 <= b1 <= 244)%N → second_of_4 b1 b2 = true →
  is_cont b3 = true → is_cont b4 = true →
  encode_cp ((b1 - 240) * 262144 + (b2 - 128) * 4096 + (b3 - 128) * 64 + (b4 - 128))
  = [b1; b2; b3; b4].
Proof.
  intros H1 H2 H3 H4. unfold second_of_4, is_cont in *.
  assert (Hb2 : (128 <= b2 <= 191)%N ∧ (b1 = 240 → 144 <= b2)%N).
  { destruct (N.eqb_spec b1 240); [bool_to_prop; lia|].
    destruct (N.eqb_spec b1 244); bool_to_prop; lia. }
  clear H2. bool_to_prop. unfold encode_cp.
  set (cp := ((b1 - 240) * 262144 + (b2 - 128) * 4096 + (b3 - 128) * 64
              + (b4 - 128))%N).
  assert (Hcp : (65536 <= cp)%N) by (subst cp; lia).
  destruct (N.ltb_spec cp 128); [lia|].
  destruct (N.ltb_spec cp 2048); [lia|].
  destruct (N.leb_spec 56448 cp), (N.leb_spec cp 56575); try lia; simpl;
    (destruct (N.ltb_spec cp 65536); [lia|]);
    subst cp; (f_equal; [|f_equal; [|f_equal; [|f_equal]]]); div_mod_lia.
Qed.

Lemma decode_step (c1 : ascii) (r1 : string) :
  ∃ cp rest,
    decode (String c1 r1) = cp :: decode rest
    ∧ String c1 r1 = (byte_string (encode_cp cp) ++ rest)%string
    ∧ (String.length rest ≤ String.length r1)%nat.
Proof.
  pose proof (N_of_ascii_lt c1) as Hlt1.
  destruct (N_of_ascii c1 <? 128)%N eqn:H1.
  { exists (N_of_ascii c1), r1. split; [cbn [decode]; by rewrite H1|].
    bool_to_prop. rewrite encode_cp_1 by done. split; [|done].
    by rewrite byte_string_cons, ascii_N_embedding. }
  assert (Hescaped :
    decode (String c1 r1) = (56320 + N_of_ascii c1)%N :: decode r1 →
    ∃ cp rest,
      decode (String c1 r1) = cp :: decode rest
      ∧ String c1 r1 = (byte_string (encode_cp cp) ++ rest)%string
      ∧ (String.length rest ≤ String.length r1)%nat).
  { intros Hdec. exists (56320 + N_of_ascii c1)%N, r1. split; [done|].
    bool_to_prop. rewrite encode_cp_escaped by lia. split; [|done].
    by rewrite byte_string_cons, ascii_N_embedding. }
  destruct r1 as [|c2 r2]; [apply Hescaped; cbn [decode]; by rewrite H1|].
  destruct ((194 <=? N_of_ascii c1)%N && (N_of_ascii c1 <=? 223)%N) eqn:H2.
  { destruct (is_cont (N_of_ascii c2)) eqn:Hc2;
      [|apply Hescaped; cbn [decode]; by rewrite H1, H2, Hc2].
    eexists _, r2. split; [cbn [decode]; by rewrite H1, H2, Hc2|].
    unfold is_cont in Hc2. bool_to_prop.
    rewrite encode_cp_2 by lia. split; [|simpl; lia].
    by rewrite !byte_string_cons, !ascii_N_embedding. }
  destruct r2 as [|c3 r3]; [apply Hescaped; cbn [decode]; by rewrite H1, H2|].
  destruct ((224 <=? N_of_ascii c1)%N && (N_of_ascii c1 <=? 239)%N) eqn:H3.
  { destruct (second_of_3 (N_of_ascii c1) (N_of_ascii c2) && is_cont (N_of_ascii c3))
      eqn:Hc; [|apply Hescaped; cbn [decode]; by rewrite H1, H2, H3, Hc].
    eexists _, r3. split; [cbn [decode]; by rewrite H1, H2, H3, Hc|].
    apply andb_true_iff in Hc as [Hc2 Hc3]. bool_to_prop.
    rewrite encode_cp_3 by (done || lia). split; [|simpl; lia].
    by rewrite !byte_string_cons, !ascii_N_embedding. }
  destruct r3 as [|c4 r4]; [apply Hescaped; cbn [decode]; by rewrite H1, H2, H3|].
  destruct ((240 <=? N_of_ascii c1)%N && (N_of_ascii c1 <=? 244)%N
            && second_of_4 (N_of_ascii c1) (N_of_ascii c2)
            && is_cont (N_of_ascii c3) && is_cont (N_of_ascii c4)) eqn:H4;
    [|apply Hescaped; cbn [decode]; by rewrite H1, H2, H3, H4].
  eexists _, r4. split; [cbn [decode]; by rewrite H1, H2, H3, H4|].
  apply andb_true_iff in H4 as [H4 Hc4]. apply andb_true_iff in H4 as [H4 Hc3].
  apply andb_true_iff in H4 as [H4 Hc2]. bool_to_prop.
  rewrite encode_cp_4 by (done || lia). split; [|simpl; lia].
  by rewrite !byte_string_cons, !ascii_N_embedding.
Qed.

(** Encoding the decoded name gives its bytes back, so two names with the
    same code points are the same name. *)
Lemma encode_decode (s : string) : encode (decode s) = s.
Proof.
  assert (Hgen : ∀ n s, (String.length s ≤ n)%nat → encode (decode s) = s).
  { clear s. induction n as [|n IH]; intros [|c1 r1] Hlen; try done; [simpl in Hlen; lia|].
    destruct (decode_step c1 r1) as (cp & rest & Hdec & Hbytes & Hrest).
    rewrite Hdec. unfold encode. cbn [map concat].
    rewrite byte_string_app. fold (encode (decode rest)).
    rewrite IH by (simpl in Hlen; lia). by rewrite <- Hbytes. }
  by apply (Hgen (String.length s)).
Qed.

Lemma decode_inj (s1 s2 : string) : decode s1 = decode s2 → s1 = s2.
Proof. intros H. by rewrite <- (encode_decode s1), H, encode_decode. Qed.

Lemma code_points_le_antisym (l1 l2 : list N) :
  code_points_le l1 l2 = true → code_points_le l2 l1 = true → l1 = l2.
Proof.
  revert l2. induction l1 as [|x l1 IH]; intros [|y l2]; simpl; try done.
  destruct (N.compare_spec x y), (N.compare_spec y x); try done; try lia.
  intros H1 H2. subst. f_equal. by apply IH.
Qed.

#[global] Instance str_le_antisymm : AntiSymm eq str_le.
Proof.
  intros s1 s2 H1 H2. apply decode_inj. by apply code_points_le_antisym.
Qed.

(** ** The comparator *)

Lemma compare_step_eq threshold base_results pr_results results key :
  compare_step threshold base_results pr_results results key =
    if negb (is_gitr_bench key) then Ok results
    else if zero_base base_results pr_results key then Raise ZeroDivisionError
    else Ok (results ++ [entry_of threshold base_results pr_results key])%list.
Proof.
  unfold compare_step, zero_base, entry_of, py_div.
  destruct (is_gitr_bench key); simpl; [|done].
  destruct (base_results !! key) as [b|]; [|done].
  destruct (pr_results !! key) as [p|]; [|done].
  destruct (b =? 0); done.
Qed.

Lemma benchmark_entry_of threshold base_results pr_results key :
  benchmark (entry_of threshold base_results pr_results key) = key.
Proof.
  unfold entry_of. destruct (base_results !! key), (pr_results !! key); done.
Qed.

(** The loop succeeds when no key of the list divides by zero ... *)
Lemma for_each_compare_ok threshold base_results pr_results keys results :
  (∀ key, key ∈ keys → is_gitr_bench key = true →
          zero_base base_results pr_results key = false) →
  for_each (compare_step threshold base_results pr_results) keys results
  = Ok (results ++ (entry_of threshold base_results pr_results <$> filter passes keys))%list.
Proof.
  revert results. induction keys as [|key keys IH]; intros results Hz.
  - simpl. by rewrite app_nil_r.
  - cbn [for_each]. rewrite compare_step_eq, filter_cons.
    destruct (decide (passes key)) as [Hg|Hg]; unfold passes in Hg.
    + rewrite Hg. simpl. rewrite Hz by (done || left). simpl.
      rewrite IH by (intros; apply Hz; [by right|done]).
      by rewrite <- app_assoc.
    + apply not_true_is_false in Hg. rewrite Hg. simpl.
      apply IH. intros; apply Hz; [by right|done].
Qed.

(** ... and raises as soon as one does. *)
Lemma for_each_compare_raise threshold base_results pr_results keys results key :
  key ∈ keys → is_gitr_bench key = true →
  zero_base base_results pr_results key = true →
  for_each (compare_step threshold base_results pr_results) keys results
  = Raise ZeroDivisionError.
Proof.
  revert results. induction keys as [|k keys IH]; intros results Hin Hg Hz.
  - by apply elem_of_nil in Hin.
  - cbn [for_each]. rewrite compare_step_eq.
    destruct (decide (k = key)) as [->|Hne].
    + by rewrite Hg, Hz.
    + apply elem_of_cons in Hin as [->|Hin]; [done|].
      destruct (negb (is_gitr_bench k)); simpl; [by apply IH|].
      destruct (zero_base base_results pr_results k); simpl; [done|by apply IH].
Qed.

Lemma comparator_Ok_no_zero threshold base_results pr_results results key :
  comparator threshold base_results pr_results = Ok results →
  key ∈ all_keys base_results pr_results → is_gitr_bench key = true →
  zero_base base_results pr_results key = false.
Proof.
  intros Hc Hin Hg. destruct (zero_base base_results pr_results key) eqn:Hz; [|done].
  unfold comparator in Hc.
  by rewrite (for_each_compare_raise _ _ _ _ _ key Hin Hg Hz) in Hc.
Qed.

Lemma comparator_Ok_inv threshold base_results pr_results results :
  comparator threshold base_results pr_results = Ok results →
  results = entry_of threshold base_results pr_results
              <$> filter passes (all_keys base_results pr_results).
Proof.
  intros Hc. pose proof Hc as Hc'. unfold comparator in Hc'.
  rewrite for_each_compare_ok in Hc'.
  - by injection Hc' as <-.
  - intros key Hin Hg. by apply (comparator_Ok_no_zero threshold _ _ results).
Qed.

Lemma filter_benchmark_entries (f : string → result) (keys : list string) (key : string) :
  (∀ k, benchmark (f k) = k) → NoDup keys →
  filter (λ r, benchmark r = key) (f <$> keys)
  = if decide (key ∈ keys) then [f key] else [].
Proof.
  intros Hf. induction keys as [|k keys IH]; intros Hnd.
  - done.
  - apply NoDup_cons in Hnd as [Hk Hnd]. specialize (IH Hnd).
    rewrite fmap_cons, filter_cons, Hf.
    destruct (decide (k = key)) as [->|Hne].
    + rewrite IH, decide_False by done. by rewrite decide_True by left.
    + rewrite IH. destruct (decide (key ∈ keys)) as [Hin|Hnin].
      * by rewrite decide_True by (by right).
      * rewrite decide_False; [done|]. intros [?|?]%elem_of_cons; done.
Qed.

Lemma comparator_entry threshold base_results pr_results results key :
  comparator threshold base_results pr_results = Ok results →
  key ∈ dom base_results ∪ dom pr_results → is_gitr_bench key = true →
  filter (λ r, benchmark r = key) results
  = [entry_of threshold base_results pr_results key].
Proof.
  intros Hc Hin Hg. rewrite (comparator_Ok_inv _ _ _ _ Hc).
  rewrite filter_benchmark_entries.
  - rewrite decide_True; [done|]. apply list_elem_of_filter. split; [done|].
    by apply elem_of_all_keys.
  - intros k. apply benchmark_entry_of.
  - apply NoDup_filter, NoDup_all_keys.
Qed.

Lemma comparator_benchmarks threshold base_results pr_results results :
  comparator threshold base_results pr_results = Ok results →
  benchmark <$> results = filter passes (all_keys base_results pr_results).
Proof.
  intros Hc. rewrite (comparator_Ok_inv _ _ _ _ Hc).
  rewrite <- list_fmap_compose.
  induction (filter passes (all_keys base_results pr_results)) as [|k l IH]; [done|].
  rewrite fmap_cons, IH. simpl. by rewrite benchmark_entry_of.
Qed.

(** Claim C1, as the code has it. For a key that passes the filter and is in
    both snapshots with a non-zero base timing, the loop appends one entry,
    the only one of the results with that key: its [pct_change] is
    [round(pct, 2)] for [pct = (pr_ns - base_ns) / base_ns * 100], and its
    status is decided on the unrounded [pct], the first test that holds
    winning: REGRESSION iff [pct > threshold]; IMPROVEMENT iff
    [pct < -threshold] and not [pct > threshold]; OK iff neither. When the
    threshold is not negative (zero included) the second test alone decides
    IMPROVEMENT, and a [pct] equal to [threshold] or to [-threshold] is OK. *)
Theorem compare_step_both_present
    (threshold : float) (base_results pr_results : gmap string float)
    (key : string) (b p : float) :
  is_gitr_bench key = true →
  base_results !! key = Some b →
  pr_results !! key = Some p →
  (b =? 0) = false →
  let pct := (p - b) / b * 100 in
  let r := {| benchmark := key; base_ns := Some b; pr_ns := Some p;
              pct_change := Some (round2 pct);
              status := classify threshold pct |} in
  (∀ results,
      compare_step threshold base_results pr_results results key
      = Ok (results ++ [r])%list)
  ∧ (∀ results,
      comparator threshold base_results pr_results = Ok results →
      filter (λ r', benchmark r' = key) results = [r])
  ∧ (status r = REGRESSION ↔ (threshold <? pct) = true)
  ∧ (status r = IMPROVEMENT ↔ (pct <? - threshold) = true ∧ (threshold <? pct) = false)
  ∧ (status r = OK ↔ (threshold <? pct) = false ∧ (pct <? - threshold) = false)
  ∧ ((0 <=? threshold) = true →
       (status r = IMPROVEMENT ↔ (pct <? - threshold) = true)
       ∧ ((pct =? threshold) = true → status r = OK)
       ∧ ((pct =? - threshold) = true → status r = OK)).
Proof.
  intros Hg Hb Hp Hnz pct r.
  assert (Hentry : entry_of threshold base_results pr_results key = r).
  { unfold entry_of. by rewrite Hb, Hp. }
  assert (Hzero : zero_base base_results pr_results key = false).
  { unfold zero_base. by rewrite Hb, Hp. }
  split; [|split].
  - intros results. by rewrite compare_step_eq, Hg, Hzero, Hentry.
  - intros results Hc. rewrite <- Hentry. apply (comparator_entry _ _ _ _ _ Hc); [|done].
    apply elem_of_union. left. apply elem_of_dom. by exists b.
  - subst r. cbn [status]. unfold classify.
    pose proof (float_below_neg_not_above threshold pct) as Hnn.
    assert (He1 : (0 <=? threshold) = true → (pct =? threshold) = true →
                  (threshold <? pct) = false ∧ (pct <? - threshold) = false).
    { intros ? Heq. split;
        [by apply float_eqb_not_gtb | by apply float_eq_threshold_not_below]. }
    assert (He2 : (0 <=? threshold) = true → (pct =? - threshold) = true →
                  (threshold <? pct) = false ∧ (pct <? - threshold) = false).
    { intros ? Heq. split;
        [by apply float_eq_neg_threshold_not_above | by apply float_eqb_not_ltb]. }
    destruct (threshold <? pct), (pct <? - threshold); intuition congruence.
Qed.

Lemma compare_step_both_present_witness :
  compare_step 5 sample_base sample_pr [] "status/gitr/small"
  = Ok [ {| benchmark := "status/gitr/small"; base_ns := Some 100; pr_ns := Some 106;
            pct_change := Some 6; status := REGRESSION |} ].
Proof.
  exact (proj1 (compare_step_both_present 5 sample_base sample_pr
                  "status/gitr/small" 100 106 eq_refl eq_refl eq_refl eq_refl) []).
Defined.

(** Claim C1 fails for a negative threshold: with threshold -5 a change of
    exactly -5 (equal to the threshold) is an IMPROVEMENT and a change of
    exactly 5 (equal to minus the threshold) is a REGRESSION, not OK; and
    with threshold -10 a change of 0 is below minus the threshold and is a
    REGRESSION, not an IMPROVEMENT. *)
Lemma classify_negative_threshold :
  ((95 - 100) / 100 * 100 =? -5) = true
  ∧ comparator (-5) {[ "gitr" := 100 ]} {[ "gitr" := 95 ]}
    = Ok [ {| benchmark := "gitr"; base_ns := Some 100; pr_ns := Some 95;
              pct_change := Some (-5); status := IMPROVEMENT |} ]
  ∧ ((105 - 100) / 100 * 100 =? - (-5)) = true
  ∧ comparator (-5) {[ "gitr" := 100 ]} {[ "gitr" := 105 ]}
    = Ok [ {| benchmark := "gitr"; base_ns := Some 100; pr_ns := Some 105;
              pct_change := Some 5; status := REGRESSION |} ]
  ∧ ((100 - 100) / 100 * 100 <? - (-10)) = true
  ∧ comparator (-10) {[ "gitr" := 100 ]} {[ "gitr" := 100 ]}
    = Ok [ {| benchmark := "gitr"; base_ns := Some 100; pr_ns := Some 100;
              pct_change := Some 0; status := REGRESSION |} ].
Proof. vm_compute. repeat split; reflexivity. Qed.

(** Claim C2, as the code has it. When no key that passes the filter is in
    both snapshots with a zero base timing, so that the comparison
    completes, the comparator returns a list of results in which
    every key of the union that passes the filter has exactly one entry,
    with the timings of the two snapshots: NEW when only the candidate has
    it, REMOVED when only the base has it, and one of REGRESSION,
    IMPROVEMENT and OK when both have it; [pct_change] is set exactly when
    both timings are; and every entry is for a key of the union that passes
    the filter. *)
Theorem comparator_classifies
    (threshold : float) (base_results pr_results : gmap string float) :
  (∀ key b, is_gitr_bench key = true → base_results !! key = Some b →
            is_Some (pr_results !! key) → (b =? 0) = false) →
  ∃ results,
    comparator threshold base_results pr_results = Ok results
    ∧ (∀ key, key ∈ dom base_results ∪ dom pr_results → is_gitr_bench key = true →
         ∃ r, filter (λ r', benchmark r' = key) results = [r]
              ∧ base_ns r = base_results !! key
              ∧ pr_ns r = pr_results !! key
              ∧ match base_results !! key, pr_results !! key with
                | None, Some _ => status r = NEW
                | Some _, None => status r = REMOVED
                | Some _, Some _ => status r ∈ [REGRESSION; IMPROVEMENT; OK]
                | None, None => False
                end
              ∧ (is_Some (pct_change r) ↔ is_Some (base_ns r) ∧ is_Some (pr_ns r)))
    ∧ (∀ r, r ∈ results →
         benchmark r ∈ dom base_results ∪ dom pr_results
         ∧ is_gitr_bench (benchmark r) = true).
Proof.
  intros Hnz.
  assert (Hz : ∀ key, key ∈ all_keys base_results pr_results → is_gitr_bench key = true →
                      zero_base base_results pr_results key = false).
  { intros key _ Hg. unfold zero_base.
    destruct (base_results !! key) as [b|] eqn:Hb; [|done].
    destruct (pr_results !! key) as [p|] eqn:Hp; [|done].
    apply (Hnz key b Hg Hb). by rewrite Hp. }
  pose proof (for_each_compare_ok threshold _ _ _ [] Hz) as Hc.
  rewrite app_nil_l in Hc. fold (comparator threshold base_results pr_results) in Hc.
  eexists. split; [exact Hc|]. split.
  - intros key Hin Hg. exists (entry_of threshold base_results pr_results key).
    split; [by apply (comparator_entry _ _ _ _ _ Hc)|].
    apply elem_of_union in Hin. rewrite !elem_of_dom in Hin.
    unfold entry_of.
    destruct (base_results !! key) as [b|] eqn:Hb, (pr_results !! key) as [p|] eqn:Hp;
      simpl.
    + repeat split; eauto. unfold classify.
      destruct (threshold <? _); [by left|].
      destruct (_ <? _); [by right; left | by right; right; left].
    + repeat split; try done;
        (by intros ?%is_Some_None) || (by intros [_ ?%is_Some_None]).
    + repeat split; try done;
        (by intros ?%is_Some_None) || (by intros [?%is_Some_None _]).
    + destruct Hin as [[? ?]|[? ?]]; done.
  - intros r Hr. apply list_elem_of_fmap in Hr as (key & -> & Hkey).
    apply list_elem_of_filter in Hkey as [Hg Hkey].
    rewrite benchmark_entry_of. split; [by apply elem_of_all_keys|done].
Qed.

Lemma comparator_classifies_witness :
  ∃ results,
    comparator 5 sample_base sample_pr = Ok results
    ∧ (∀ key, key ∈ dom sample_base ∪ dom sample_pr → is_gitr_bench key = true →
         ∃ r, filter (λ r', benchmark r' = key) results = [r]
              ∧ base_ns r = sample_base !! key
              ∧ pr_ns r = sample_pr !! key
              ∧ match sample_base !! key, sample_pr !! key with
                | None, Some _ => status r = NEW
                | Some _, None => status r = REMOVED
                | Some _, Some _ => status r ∈ [REGRESSION; IMPROVEMENT; OK]
                | None, None => False
                end
              ∧ (is_Some (pct_change r) ↔ is_Some (base_ns r) ∧ is_Some (pr_ns r)))
    ∧ (∀ r, r ∈ results →
         benchmark r ∈ dom sample_base ∪ dom sample_pr
         ∧ is_gitr_bench (benchmark r) = true).
Proof.
  apply (comparator_classifies 5 sample_base sample_pr).
  intros key b Hg Hb _. unfold sample_base in Hb.
  apply lookup_insert_Some in Hb as [[<- <-]|[_ Hb]]; [discriminate Hg|].
  apply lookup_insert_Some in Hb as [[<- <-]|[_ Hb]]; [reflexivity|].
  by rewrite lookup_empty in Hb.
Defined.

(** ** The order of the results *)

Lemma StronglySorted_fmap_filter {A B} (R : relation B) (f : A → B) (P : A → Prop)
    `{∀ x, Decision (P x)} (l : list A) :
  StronglySorted R (f <$> l) → StronglySorted R (f <$> filter P l).
Proof.
  induction l as [|x l IH]; intros Hs; [constructor|].
  rewrite fmap_cons in Hs. apply StronglySorted_cons in Hs as [Hx Hl].
  rewrite filter_cons. destruct (decide (P x)); [|by apply IH].
  rewrite fmap_cons. apply StronglySorted_cons. split; [|by apply IH].
  apply Forall_forall. intros y Hy.
  apply list_elem_of_fmap in Hy as (z & -> & Hz).
  apply list_elem_of_filter in Hz as [_ Hz].
  apply (proj1 (Forall_forall _ _) Hx). apply list_elem_of_fmap. by exists z.
Qed.

Lemma sample_log_results :
  comparator 5 sample_log sample_log
  = Ok [ {| benchmark := "log-graph/gitr"; base_ns := Some 200; pr_ns := Some 200;
            pct_change := Some 0; status := OK |};
         {| benchmark := "log/gitr"; base_ns := Some 100; pr_ns := Some 100;
            pct_change := Some 0; status := OK |} ].
Proof. vm_compute. reflexivity. Qed.

(** Claim C5 fails: the keys are sorted as strings, and a character below the
    separator (here [-]) inside a segment puts ["log-graph/gitr"] before
    ["log/gitr"], while the segment ["log"] is before ["log-graph"]. *)
Lemma results_not_sorted_by_segments :
  comparator 5 sample_log sample_log
  = Ok [ {| benchmark := "log-graph/gitr"; base_ns := Some 200; pr_ns := Some 200;
            pct_change := Some 0; status := OK |};
         {| benchmark := "log/gitr"; base_ns := Some 100; pr_ns := Some 100;
            pct_change := Some 0; status := OK |} ]
  ∧ ¬ identity_le "log-graph/gitr" "log/gitr"
  ∧ identity_le "log/gitr" "log-graph/gitr"
  ∧ ¬ Sorted identity_le ["log-graph/gitr"; "log/gitr"].
Proof.
  split; [exact sample_log_results|].
  assert (Hn : ¬ identity_le "log-graph/gitr" "log/gitr") by (vm_compute; discriminate).
  split; [exact Hn|]. split; [vm_compute; reflexivity|].
  intros Hs. inversion Hs as [|? ? _ Hhd]; subst.
  inversion Hhd; subst. contradiction.
Qed.


(** ** A zero base timing *)

(** Claim C7 fails for a key that the filter rejects: its base timing is
    never divided by, and the run ends well with no result. *)
Lemma zero_base_outside_filter :
  sample_git_only_base !! "status/git/small" = Some 0
  ∧ sample_git_only_pr !! "status/git/small" = Some 90
  ∧ comparator 5 sample_git_only_base sample_git_only_pr = Ok []
  ∧ exit_status (main no_digits no_digits no_digits sample_git_only_tree sample_args) = 0%Z.
Proof. repeat split; vm_compute; reflexivity. Qed.

(** Claim C7, as the code has it. When a key that passes the filter is in
    both snapshots with a base timing equal to zero, the comparator raises
    ZeroDivisionError: it returns no result at all, and [main] ends on that
    exception with a non-zero status, before any file is written. *)
Theorem main_zero_base
    (str_float fmt_2f fmt_0f : float → string)
    (os_walk : string → list walk_entry) (args : Args)
    (base_results pr_results : gmap string float) (key : string) (b p : float) :
  find_baselines os_walk (criterion_dir args) (base args) = Ok base_results →
  find_baselines os_walk (criterion_dir args) (pr args) = Ok pr_results →
  is_gitr_bench key = true →
  base_results !! key = Some b →
  pr_results !! key = Some p →
  (b =? 0) = true →
  comparator (threshold args) base_results pr_results = Raise ZeroDivisionError
  ∧ main str_float fmt_2f fmt_0f os_walk args = Uncaught ZeroDivisionError []
  ∧ exit_status (main str_float fmt_2f fmt_0f os_walk args) ≠ 0%Z
  ∧ artifacts (main str_float fmt_2f fmt_0f os_walk args) = [].
Proof.
  intros Hbase Hpr Hg Hb Hp Hz.
  assert (Hc : comparator (threshold args) base_results pr_results
               = Raise ZeroDivisionError).
  { unfold comparator. apply (for_each_compare_raise _ _ _ _ _ key); [|done|].
    - apply elem_of_all_keys, elem_of_union. left. apply elem_of_dom. by exists b.
    - unfold zero_base. by rewrite Hb, Hp. }
  assert (Hm : main str_float fmt_2f fmt_0f os_walk args = Uncaught ZeroDivisionError []).
  { unfold main. rewrite Hbase, Hpr.
    rewrite decide_False by (intros ->; by rewrite lookup_empty in Hb).
    rewrite decide_False by (intros ->; by rewrite lookup_empty in Hp).
    by rewrite Hc. }
  rewrite Hm. by repeat split.
Qed.

Lemma main_zero_base_witness :
  comparator 5 sample_zero_base sample_zero_pr = Raise ZeroDivisionError
  ∧ main no_digits no_digits no_digits sample_zero_tree sample_args
    = Uncaught ZeroDivisionError []
  ∧ exit_status (main no_digits no_digits no_digits sample_zero_tree sample_args) ≠ 0%Z
  ∧ artifacts (main no_digits no_digits no_digits sample_zero_tree sample_args) = [].
Proof.
  apply (main_zero_base no_digits no_digits no_digits sample_zero_tree sample_args
           sample_zero_base sample_zero_pr "init/gitr" 0 250);
    vm_compute; reflexivity.
Defined.

(** ** Missing baselines, and runs without a benchmark of the subsystem *)

Lemma filter_none {A} (P : A → Prop) `{∀ x, Decision (P x)} (l : list A) :
  (∀ x, x ∈ l → ¬ P x) → filter P l = [].
Proof.
  induction l as [|x l IH]; intros Hl; [done|].
  rewrite filter_cons, decide_False by (apply Hl; by left).
  apply IH. intros y Hy. apply Hl. by right.
Qed.

Lemma report_not_SysExit str_float fmt_2f fmt_0f args results code msg :
  report str_float fmt_2f fmt_0f args results ≠ SysExit code msg.
Proof.
  unfold report.
  destruct (table_rows _ _ _ (filter (has_status REGRESSION) results)); [done|].
  destruct (table_rows _ _ _ (filter (has_status IMPROVEMENT) results)); [done|].
  by destruct (forallb encodable (map benchmark results)).
Qed.

(** Claim C9. With both snapshots loaded and non-empty, when no key of
    either passes the filter the run ends well: status 0, the two files
    written, and in the JSON document no regression, a total of 0, no
    regression and no improvement counted, and an empty list of results. *)
Theorem main_no_gitr_benchmark
    (str_float fmt_2f fmt_0f : float → string)
    (os_walk : string → list walk_entry) (args : Args)
    (base_results pr_results : gmap string float) :
  find_baselines os_walk (criterion_dir args) (base args) = Ok base_results →
  find_baselines os_walk (criterion_dir args) (pr args) = Ok pr_results →
  base_results ≠ ∅ → pr_results ≠ ∅ →
  (∀ key, key ∈ dom base_results ∪ dom pr_results → is_gitr_bench key = false) →
  let run := main str_float fmt_2f fmt_0f os_walk args in
  exit_status run = 0%Z
  ∧ ∃ md_content stdout,
      run = Finished
              [ ("bench-results.json",
                 JsonDoc {| json_has_regression := false;
                            json_threshold := threshold args;
                            json_total := 0;
                            json_regressions := 0;
                            json_improvements := 0;
                            json_results := [] |});
                ("bench-results.md", Text md_content) ]
              stdout.
Proof.
  intros Hbase Hpr Hb Hp Hnone run.
  assert (Hc : comparator (threshold args) base_results pr_results = Ok []).
  { unfold comparator. rewrite for_each_compare_ok.
    - rewrite app_nil_l.
      assert (Hf : filter passes (all_keys base_results pr_results) = []).
      { apply filter_none. intros key Hin Hpass.
        apply elem_of_all_keys in Hin. unfold passes in Hpass.
        by rewrite (Hnone key Hin) in Hpass. }
      by rewrite Hf.
    - intros key Hin Hg. apply elem_of_all_keys in Hin.
      by rewrite (Hnone key Hin) in Hg. }
  assert (Hrun : run = report str_float fmt_2f fmt_0f args []).
  { subst run. unfold main. rewrite Hbase, Hpr.
    rewrite decide_False by done. rewrite decide_False by done. by rewrite Hc. }
  rewrite Hrun. split; [reflexivity|].
  eexists _, _. reflexivity.
Qed.

Lemma main_no_gitr_benchmark_witness :
  exit_status (main no_digits no_digits no_digits sample_git_tree sample_args) = 0%Z.
Proof.
  refine (proj1 (main_no_gitr_benchmark no_digits no_digits no_digits
            sample_git_tree sample_args sample_git_base sample_git_pr _ _ _ _ _)).
  - vm_compute. reflexivity.
  - vm_compute. reflexivity.
  - intros H. apply (f_equal (λ m : gmap string float, m !! "status/git/small")) in H.
    vm_compute in H. discriminate.
  - intros H. apply (f_equal (λ m : gmap string float, m !! "status/git/small")) in H.
    vm_compute in H. discriminate.
  - intros key Hin. unfold sample_git_base, sample_git_pr in Hin.
    rewrite !dom_singleton_L in Hin.
    apply elem_of_union in Hin as [->%elem_of_singleton| ->%elem_of_singleton];
      reflexivity.
Defined.

(** ** The sign of a rendered change *)

(** The regressions table and the console lines put ["+"] before the change
    whatever its sign; the table of all results puts it only before a
    positive change. *)
Lemma regression_change_plus str_float (r : result) :
  regression_change str_float r = "+" ++ str_field str_float (pct_change r) ++ "%".
Proof. reflexivity. Qed.

Lemma all_results_change_sign str_float (r : result) (c : float) :
  pct_change r = Some c →
  all_results_change str_float r
  = (if 0 <? c then "+" else "") ++ str_float c ++ "%".
Proof. intros H. unfold all_results_change. by rewrite H. Qed.

(** Claim C8 at thresholds that let a change that is not positive be a
    regression. With threshold -10, base 100 and candidate 95 the change is
    -5 and is a REGRESSION: its row of the regressions table and its console
    line show ["+"] before the negative number, while the table of all
    results shows the number alone. With threshold 0, a change that rounds
    to 0 is shown as ["+"] and the number in the first two, and alone in the
    third. *)
Theorem regression_rows_sign_not_positive (str_float fmt_2f fmt_0f : float → string) :
  let r := {| benchmark := "gitr"; base_ns := Some 100; pr_ns := Some 95;
              pct_change := Some (-5); status := REGRESSION |} in
  let r0 := {| benchmark := "gitr"; base_ns := Some 1048576; pr_ns := Some 1048577;
               pct_change := Some 0; status := REGRESSION |} in
  comparator (-10) {[ "gitr" := 100 ]} {[ "gitr" := 95 ]} = Ok [r]
  ∧ (-5 <? 0) = true
  ∧ table_row fmt_2f fmt_0f (regression_change str_float) r
    = inr ("| `gitr` | " ++ format_ns fmt_2f fmt_0f 100 ++ " | "
             ++ format_ns fmt_2f fmt_0f 95 ++ " | "
             ++ ("+" ++ str_float (-5) ++ "%") ++ " |")
  ∧ console_line str_float r = "  gitr: " ++ ("+" ++ str_float (-5) ++ "%")
  ∧ all_results_change str_float r = str_float (-5) ++ "%"
  ∧ comparator 0 {[ "gitr" := 1048576 ]} {[ "gitr" := 1048577 ]} = Ok [r0]
  ∧ console_line str_float r0 = "  gitr: " ++ ("+" ++ str_float 0 ++ "%")
  ∧ all_results_change str_float r0 = str_float 0 ++ "%".
Proof.
  intros r r0. repeat split; vm_compute; reflexivity.
Qed.

(** ** The keys of a loaded snapshot, and the reporter on compared results *)

Lemma elem_of_first_split (x : string) (l : list string) :
  x ∈ l → ∃ pre post, l = (pre ++ x :: post)%list ∧ x ∉ pre.
Proof.
  induction l as [|y l IH]; intros Hin; [by apply elem_of_nil in Hin|].
  destruct (decide (y = x)) as [->|Hne].
  - exists [], l. split; [done|]. apply not_elem_of_nil.
  - apply elem_of_cons in Hin as [->|Hin]; [done|].
    destruct (IH Hin) as (pre & post & -> & Hpre).
    exists (y :: pre), post. split; [done|].
    apply not_elem_of_cons. split; [congruence|done].
Qed.

Lemma find_baselines_step_Ok baseline_name results d results' :
  find_baselines_step baseline_name results d = Ok results' →
  results' = results
  ∨ (∃ pre post v,
      "estimates.json" ∈ files d
      ∧ split os_sep_char (rel d) = (pre ++ baseline_name :: post)%list
      ∧ (baseline_name ∉ pre)
      ∧ join os_sep pre ≠ ""
      ∧ estimates d = PointEstimate v
      ∧ results' = <[join os_sep pre := v]> results).
Proof.
  unfold find_baselines_step.
  destruct (decide ("estimates.json" ∈ files d)) as [Hfile|]; [|left; congruence].
  destruct (decide (baseline_name ∈ split os_sep_char (rel d))) as [Hin|];
    [|left; congruence].
  apply elem_of_first_split in Hin as (pre & post & Hparts & Hpre).
  rewrite Hparts, py_index_first, take_app_length by done.
  destruct (String.eqb (join os_sep pre) "") eqn:Hkey; [left; congruence|].
  destruct (estimates d) as [|v] eqn:Hv; [done|].
  intros [= <-]. right. exists pre, post, v.
  apply String.eqb_neq in Hkey. by repeat split.
Qed.

(** Every key of a loaded snapshot is the joined segments found before the
    baseline name in the path of a directory that lists the data file. *)
Lemma find_baselines_keys os_walk criterion_dir baseline_name results key :
  find_baselines os_walk criterion_dir baseline_name = Ok results →
  is_Some (results !! key) →
  ∃ d pre post,
    d ∈ os_walk criterion_dir
    ∧ "estimates.json" ∈ files d
    ∧ split os_sep_char (rel d) = (pre ++ baseline_name :: post)%list
    ∧ (baseline_name ∉ pre)
    ∧ key = join os_sep pre ∧ key ≠ "".
Proof.
  unfold find_baselines.
  assert (Hgen : ∀ tree (acc : gmap string float),
            for_each (find_baselines_step baseline_name) tree acc = Ok results →
            is_Some (results !! key) →
            is_Some (acc !! key)
            ∨ (∃ d pre post,
                d ∈ tree ∧ "estimates.json" ∈ files d
                ∧ split os_sep_char (rel d) = (pre ++ baseline_name :: post)%list
                ∧ (baseline_name ∉ pre) ∧ key = join os_sep pre ∧ key ≠ "")).
  { induction tree as [|d tree IH]; intros acc Hrun Hkey.
    - left. by injection Hrun as ->.
    - cbn [for_each] in Hrun.
      destruct (find_baselines_step baseline_name acc d) as [acc'|] eqn:Hstep; [|done].
      simpl in Hrun.
      destruct (IH acc' Hrun Hkey) as [Hacc'|(d' & pre & post & Hd' & Hrest)].
      + apply find_baselines_step_Ok in Hstep
          as [->|(pre & post & v & Hfile & Hparts & Hpre & Hne & _ & ->)]; [by left|].
        destruct (decide (key = join os_sep pre)) as [->|Hother].
        * right. exists d, pre, post. repeat split; try done. by left.
        * left. by rewrite lookup_insert_ne in Hacc'.
      + right. exists d', pre, post. split; [by right|done]. }
  intros Hrun Hkey. destruct (Hgen _ _ Hrun Hkey) as [Hempty|H]; [|done].
  rewrite lookup_empty in Hempty. by apply is_Some_None in Hempty.
Qed.

Lemma table_rows_both_present fmt_2f fmt_0f change (rs : list result) :
  Forall (λ r, is_Some (base_ns r) ∧ is_Some (pr_ns r)) rs →
  ∃ rows, table_rows fmt_2f fmt_0f change rs = inr rows.
Proof.
  induction 1 as [|r rs [[b Hb] [p Hp]] _ [rows IH]]; [by eexists|].
  cbn [table_rows]. unfold table_row. rewrite Hb, Hp. simpl. rewrite IH. by eexists.
Qed.

Lemma comparator_both_present_rows threshold base_results pr_results results s :
  comparator threshold base_results pr_results = Ok results →
  s = REGRESSION ∨ s = IMPROVEMENT →
  Forall (λ r, is_Some (base_ns r) ∧ is_Some (pr_ns r)) (filter (has_status s) results).
Proof.
  intros Hc Hs. apply Forall_forall. intros r Hr.
  apply list_elem_of_filter in Hr as [Hst Hr]. unfold has_status in Hst.
  rewrite (comparator_Ok_inv _ _ _ _ Hc) in Hr.
  apply list_elem_of_fmap in Hr as (key & -> & _).
  unfold entry_of in *.
  destruct (base_results !! key), (pr_results !! key); simpl in *;
    try (destruct Hs; congruence).
  split; by eexists.
Qed.

(** On the results of the comparator the reporter raises no TypeError: the
    run finishes, both files written, when every key can be encoded, and
    else ends on the writing of the markdown text, left empty. *)
Lemma report_finishes str_float fmt_2f fmt_0f args threshold base_results pr_results results :
  comparator threshold base_results pr_results = Ok results →
  forallb encodable (map benchmark results) = true →
  ∃ written stdout, report str_float fmt_2f fmt_0f args results = Finished written stdout.
Proof.
  intros Hc Henc. unfold report.
  destruct (table_rows_both_present fmt_2f fmt_0f (regression_change str_float) _
              (comparator_both_present_rows _ _ _ _ REGRESSION Hc (or_introl eq_refl)))
    as [rows1 ->].
  destruct (table_rows_both_present fmt_2f fmt_0f (improvement_change str_float) _
              (comparator_both_present_rows _ _ _ _ IMPROVEMENT Hc (or_intror eq_refl)))
    as [rows2 ->].
  rewrite Henc. by eexists _, _.
Qed.

Lemma report_not_encodable str_float fmt_2f fmt_0f args threshold base_results pr_results results :
  comparator threshold base_results pr_results = Ok results →
  forallb encodable (map benchmark results) = false →
  ∃ j, report str_float fmt_2f fmt_0f args results
       = UncaughtReport UnicodeEncodeError
           [("bench-results.json", JsonDoc j); ("bench-results.md", Text "")]
       ∧ json_results j = results.
Proof.
  intros Hc Henc. unfold report.
  destruct (table_rows_both_present fmt_2f fmt_0f (regression_change str_float) _
              (comparator_both_present_rows _ _ _ _ REGRESSION Hc (or_introl eq_refl)))
    as [rows1 ->].
  destruct (table_rows_both_present fmt_2f fmt_0f (improvement_change str_float) _
              (comparator_both_present_rows _ _ _ _ IMPROVEMENT Hc (or_intror eq_refl)))
    as [rows2 ->].
  rewrite Henc. by eexists.
Qed.

Lemma for_each_compare_exn threshold base_results pr_results keys results e :
  for_each (compare_step threshold base_results pr_results) keys results = Raise e →
  e = ZeroDivisionError.
Proof.
  revert results. induction keys as [|key keys IH]; intros results; [done|].
  cbn [for_each]. rewrite compare_step_eq.
  destruct (negb (is_gitr_bench key)); simpl; [apply IH|].
  destruct (zero_base base_results pr_results key); simpl; [congruence|apply IH].
Qed.

(** With two non-empty snapshots a run either finishes, both files written,
    or ends on the division by a zero base timing, nothing written, or ends
    on the writing of the markdown text, after the JSON document. *)
Lemma main_proceeds str_float fmt_2f fmt_0f os_walk args base_results pr_results :
  find_baselines os_walk (criterion_dir args) (base args) = Ok base_results →
  find_baselines os_walk (criterion_dir args) (pr args) = Ok pr_results →
  base_results ≠ ∅ → pr_results ≠ ∅ →
  (∃ written stdout, main str_float fmt_2f fmt_0f os_walk args = Finished written stdout)
  ∨ main str_float fmt_2f fmt_0f os_walk args = Uncaught ZeroDivisionError []
  ∨ (∃ j, main str_float fmt_2f fmt_0f os_walk args
          = UncaughtReport UnicodeEncodeError
              [("bench-results.json", JsonDoc j); ("bench-results.md", Text "")]).
Proof.
  intros Hbase Hpr Hb Hp. unfold main. rewrite Hbase, Hpr.
  rewrite decide_False by done. rewrite decide_False by done.
  destruct (comparator (threshold args) base_results pr_results) as [results|e] eqn:Hc.
  - destruct (forallb encodable (map benchmark results)) eqn:Henc.
    + left. by apply (report_finishes _ _ _ _ _ _ _ _ Hc).
    + right; right.
      destruct (report_not_encodable str_float fmt_2f fmt_0f args _ _ _ _ Hc Henc)
        as (j & -> & _).
      by exists j.
  - right; left. unfold comparator in Hc. by rewrite (for_each_compare_exn _ _ _ _ _ _ Hc).
Qed.

(** Claim C10. A key of a loaded snapshot joins the segments found before
    the baseline name in the path of a directory, and splitting it gives
    these segments back; no segment contains the separator, so none begins
    with ["gitr/"], and on such a key [is_gitr_bench] agrees with the
    predicate that only tests equality with ["gitr"] and the prefix
    ["gitr_"]. *)
Theorem loader_keys_filter_simple
    (os_walk : string → list walk_entry) (criterion_dir baseline_name : string)
    (results : gmap string float) (key : string) :
  find_baselines os_walk criterion_dir baseline_name = Ok results →
  is_Some (results !! key) →
  (∃ d pre post,
      d ∈ os_walk criterion_dir
      ∧ split os_sep_char (rel d) = (pre ++ baseline_name :: post)%list
      ∧ split os_sep_char key = pre)
  ∧ Forall (λ p, str_contains os_sep_char p = false ∧ startswith p "gitr/" = false)
           (split os_sep_char key)
  ∧ is_gitr_bench key = is_gitr_bench_simple key.
Proof.
  intros Hload Hkey. split; [|split; [|apply is_gitr_bench_simple_eq]].
  - destruct (find_baselines_keys _ _ _ _ _ Hload Hkey)
      as (d & pre & post & Hd & _ & Hparts & _ & -> & Hne).
    exists d, pre, post. split; [done|]. split; [done|].
    apply split_join; [by intros ->|].
    pose proof (split_no_sep os_sep_char (rel d)) as Hns. rewrite Hparts in Hns.
    by apply Forall_app in Hns as [Hns _].
  - apply Forall_forall. intros p Hp. split.
    + by apply (proj1 (Forall_forall _ _) (split_no_sep os_sep_char key)).
    + by apply (split_segment_not_gitr_slash key).
Qed.

Lemma loader_keys_filter_simple_witness :
  is_gitr_bench "status/gitr/small" = is_gitr_bench_simple "status/gitr/small".
Proof.
  refine (proj2 (proj2 (loader_keys_filter_simple sample_tree "target/criterion" "main"
                          sample_base "status/gitr/small" _ _))).
  - vm_compute. reflexivity.
  - exists 100. vm_compute. reflexivity.
Defined.

(** * Further properties of the loader *)

Lemma first_split_unique (x : string) (pre pre' post post' : list string) :
  (pre ++ x :: post = pre' ++ x :: post')%list → x ∉ pre → x ∉ pre' → pre = pre'.
Proof.
  revert pre'. induction pre as [|a pre IH]; intros [|a' pre'] Heq Hx Hx'.
  - done.
  - simplify_eq/=. exfalso. apply Hx'. by left.
  - simplify_eq/=. exfalso. apply Hx. by left.
  - simplify_eq/=. f_equal. apply (IH pre'); [done| |].
    + intros ?. apply Hx. by right.
    + intros ?. apply Hx'. by right.
Qed.

Lemma records_unique baseline_name d key1 key2 :
  records baseline_name d key1 → records baseline_name d key2 → key1 = key2.
Proof.
  intros (_ & pre1 & post1 & H1 & Hn1 & -> & _) (_ & pre2 & post2 & H2 & Hn2 & -> & _).
  rewrite H1 in H2. by rewrite (first_split_unique _ _ _ _ _ H2 Hn1 Hn2).
Qed.

Lemma find_baselines_step_records baseline_name results d key :
  records baseline_name d key →
  find_baselines_step baseline_name results d
  = match estimates d with
    | Malformed => Raise MalformedData
    | PointEstimate v => Ok (<[key := v]> results)
    end.
Proof.
  intros (Hfile & pre & post & Hparts & Hpre & -> & Hne).
  unfold find_baselines_step. rewrite decide_True by done.
  rewrite decide_True by (rewrite Hparts; apply elem_of_app; right; by left).
  rewrite Hparts, py_index_first, take_app_length by done.
  apply String.eqb_neq in Hne. by rewrite Hne.
Qed.

Lemma find_baselines_step_no_record baseline_name results d :
  (∀ key, ¬ records baseline_name d key) →
  find_baselines_step baseline_name results d = Ok results.
Proof.
  intros Hno. unfold find_baselines_step.
  destruct (decide ("estimates.json" ∈ files d)) as [Hfile|]; [|done].
  destruct (decide (baseline_name ∈ split os_sep_char (rel d))) as [Hin|]; [|done].
  apply elem_of_first_split in Hin as (pre & post & Hparts & Hpre).
  rewrite Hparts, py_index_first, take_app_length by done.
  destruct (String.eqb (join os_sep pre) "") eqn:Hkey; [done|].
  apply String.eqb_neq in Hkey.
  destruct (Hno (join os_sep pre)). split; [done|]. by exists pre, post.
Qed.

Lemma records_or_not baseline_name d :
  (∃ key, records baseline_name d key) ∨ (∀ key, ¬ records baseline_name d key).
Proof.
  destruct (decide ("estimates.json" ∈ files d)) as [Hfile|Hfile];
    [|right; by intros key [? _]].
  destruct (decide (baseline_name ∈ split os_sep_char (rel d))) as [Hin|Hin].
  - apply elem_of_first_split in Hin as (pre & post & Hparts & Hpre).
    destruct (decide (join os_sep pre = "")) as [Hkey|Hkey].
    + right. intros key (_ & pre' & post' & Hparts' & Hpre' & -> & Hne).
      rewrite Hparts in Hparts'.
      by rewrite <- (first_split_unique _ _ _ _ _ Hparts' Hpre Hpre') in Hne.
    + left. exists (join os_sep pre). split; [done|]. by exists pre, post.
  - right. intros key (_ & pre & post & Hparts & _). apply Hin.
    rewrite Hparts. apply elem_of_app. right. by left.
Qed.

Lemma loader_loop_exn baseline_name tree results e :
  for_each (find_baselines_step baseline_name) tree results = Raise e →
  e = MalformedData.
Proof.
  revert results. induction tree as [|d tree IH]; intros results; [done|].
  cbn [for_each].
  destruct (records_or_not baseline_name d) as [[key Hrec]|Hno].
  - rewrite (find_baselines_step_records _ _ _ _ Hrec).
    destruct (estimates d); simpl; [congruence|apply IH].
  - rewrite (find_baselines_step_no_record _ _ _ Hno). simpl. apply IH.
Qed.

Lemma loader_loop_ok baseline_name tree results :
  (∀ d key, d ∈ tree → records baseline_name d key → estimates d ≠ Malformed) →
  ∃ results', for_each (find_baselines_step baseline_name) tree results = Ok results'.
Proof.
  revert results. induction tree as [|d tree IH]; intros results Hgood; [by eexists|].
  cbn [for_each].
  assert (Hrest : ∀ d' key, d' ∈ tree → records baseline_name d' key →
                            estimates d' ≠ Malformed).
  { intros d' key Hd'. apply Hgood. by right. }
  destruct (records_or_not baseline_name d) as [[key Hrec]|Hno].
  - rewrite (find_baselines_step_records _ _ _ _ Hrec).
    destruct (estimates d) as [|v] eqn:Hv.
    + destruct (Hgood d key); [by left|done|done].
    + simpl. by apply IH.
  - rewrite (find_baselines_step_no_record _ _ _ Hno). simpl. by apply IH.
Qed.

Lemma loader_loop_malformed baseline_name tree results d key :
  d ∈ tree → records baseline_name d key → estimates d = Malformed →
  for_each (find_baselines_step baseline_name) tree results = Raise MalformedData.
Proof.
  revert results. induction tree as [|d' tree IH]; intros results Hin Hrec Hbad.
  - by apply elem_of_nil in Hin.
  - cbn [for_each].
    destruct (find_baselines_step baseline_name results d') as [results'|e] eqn:Hstep.
    + simpl. apply elem_of_cons in Hin as [<-|Hin]; [|by apply IH].
      rewrite (find_baselines_step_records _ _ _ _ Hrec), Hbad in Hstep. done.
    + simpl. f_equal.
      apply (loader_loop_exn baseline_name [d'] results). cbn [for_each].
      by rewrite Hstep.
Qed.

(** X1. The load of a baseline succeeds exactly when no directory that
    records a timing for it has a malformed data file; a malformed file of
    a directory that records nothing for the baseline (another baseline, or
    the baseline name first in the path) is never read. When the load
    fails it is on the malformed data, never on the search of the baseline
    name. *)
Theorem find_baselines_succeeds_iff
    (os_walk : string → list walk_entry) (criterion_dir baseline_name : string) :
  ((∃ results, find_baselines os_walk criterion_dir baseline_name = Ok results)
   ↔ ∀ d key, d ∈ os_walk criterion_dir → records baseline_name d key →
              estimates d ≠ Malformed)
  ∧ (∀ e, find_baselines os_walk criterion_dir baseline_name = Raise e →
          e = MalformedData).
Proof.
  unfold find_baselines. split; [split|].
  - intros [results Hok] d key Hd Hrec Hbad.
    by rewrite (loader_loop_malformed _ _ _ _ _ Hd Hrec Hbad) in Hok.
  - apply loader_loop_ok.
  - intros e. apply loader_loop_exn.
Qed.

Lemma find_baselines_succeeds_iff_witness :
  ∃ results, find_baselines sample_twice_tree "target/criterion" "main" = Ok results.
Proof.
  apply (proj1 (find_baselines_succeeds_iff sample_twice_tree "target/criterion" "main")).
  intros d key Hd Hrec Hbad. unfold sample_twice_tree in Hd.
  apply elem_of_cons in Hd as [->|Hd]; [discriminate Hbad|].
  apply elem_of_cons in Hd as [->|Hd].
  - destruct Hrec as (_ & pre & post & Hparts & _).
    assert (Hin : "main" ∈ split os_sep_char "init/gitr/old").
    { cbn [rel] in Hparts. rewrite Hparts. apply elem_of_app. right. by left. }
    vm_compute in Hin. apply list_elem_of_In in Hin. simpl in Hin.
    intuition discriminate.
  - apply elem_of_cons in Hd as [->|Hd]; [discriminate Hbad|].
    by apply elem_of_nil in Hd.
Defined.

(** The snapshot after the loop: a key holds the timing of the last
    directory of the walk that records under it, or else what it held
    before the loop. *)
Lemma loader_loop_lookup baseline_name tree (acc results : gmap string float) key v :
  for_each (find_baselines_step baseline_name) tree acc = Ok results →
  results !! key = Some v
  ↔ (∃ t1 d t2, tree = (t1 ++ d :: t2)%list
                ∧ records baseline_name d key
                ∧ estimates d = PointEstimate v
                ∧ ∀ d', d' ∈ t2 → ¬ records baseline_name d' key)
    ∨ (acc !! key = Some v ∧ ∀ d', d' ∈ tree → ¬ records baseline_name d' key).
Proof.
  revert acc. induction tree as [|d tree IH]; intros acc Hrun.
  - injection Hrun as ->. split.
    + intros Hv. right. split; [done|]. by intros d' ?%elem_of_nil.
    + intros [(t1 & d & t2 & Heq & _)|[Hv _]]; [by destruct t1|done].
  - cbn [for_each] in Hrun.
    destruct (find_baselines_step baseline_name acc d) as [acc'|] eqn:Hstep; [|done].
    simpl in Hrun. rewrite (IH acc' Hrun). clear IH Hrun.
    destruct (records_or_not baseline_name d) as [[k0 Hrec]|Hno].
    + rewrite (find_baselines_step_records _ _ _ _ Hrec) in Hstep.
      destruct (estimates d) as [|v0] eqn:Hv0; [done|]. injection Hstep as <-.
      split.
      * intros [(t1 & d1 & t2 & -> & H1 & H2 & H3)|[Hacc Hnone]].
        -- left. by exists (d :: t1), d1, t2.
        -- destruct (decide (k0 = key)) as [->|Hne].
           ++ rewrite lookup_insert_eq in Hacc. injection Hacc as ->.
              left. by exists [], d, tree.
           ++ rewrite lookup_insert_ne in Hacc by done.
              right. split; [done|]. intros d' [->|Hd']%elem_of_cons; [|by apply Hnone].
              intros Hrec'. by rewrite (records_unique _ _ _ _ Hrec Hrec') in Hne.
      * intros [(t1 & d1 & t2 & Heq & H1 & H2 & H3)|[Hacc Hnone]].
        -- destruct t1 as [|d0 t1]; simplify_eq/=.
           ++ right. rewrite (records_unique _ _ _ _ Hrec H1).
              rewrite lookup_insert_eq. split; [congruence|done].
           ++ left. by exists t1, d1, t2.
        -- right. split.
           ++ rewrite lookup_insert_ne; [done|]. intros ->.
              apply (Hnone d); [by left|done].
           ++ intros d' Hd'. apply Hnone. by right.
    + rewrite (find_baselines_step_no_record _ _ _ Hno) in Hstep. injection Hstep as <-.
      split.
      * intros [(t1 & d1 & t2 & -> & H1 & H2 & H3)|[Hacc Hnone]].
        -- left. by exists (d :: t1), d1, t2.
        -- right. split; [done|]. intros d' [->|Hd']%elem_of_cons; [apply Hno|by apply Hnone].
      * intros [(t1 & d1 & t2 & Heq & H1 & H2 & H3)|[Hacc Hnone]].
        -- destruct t1 as [|d0 t1]; simplify_eq/=.
           ++ by destruct (Hno key).
           ++ left. by exists t1, d1, t2.
        -- right. split; [done|]. intros d' Hd'. apply Hnone. by right.
Qed.

(** X2. Every key of a loaded snapshot is recorded by a directory of the
    walk; it is not empty and the baseline name is not one of its
    segments. *)
Theorem find_baselines_key_origin
    (os_walk : string → list walk_entry) (criterion_dir baseline_name : string)
    (results : gmap string float) (key : string) :
  find_baselines os_walk criterion_dir baseline_name = Ok results →
  is_Some (results !! key) →
  key ≠ ""
  ∧ (baseline_name ∉ split os_sep_char key)
  ∧ ∃ d, d ∈ os_walk criterion_dir ∧ records baseline_name d key.
Proof.
  intros Hload Hkey.
  destruct (find_baselines_keys _ _ _ _ _ Hload Hkey)
    as (d & pre & post & Hd & Hfile & Hparts & Hpre & -> & Hne).
  split; [done|]. split.
  - rewrite split_join; [done|by intros ->|].
    pose proof (split_no_sep os_sep_char (rel d)) as Hns. rewrite Hparts in Hns.
    by apply Forall_app in Hns as [Hns _].
  - exists d. split; [done|]. split; [done|]. by exists pre, post.
Qed.

Lemma find_baselines_key_origin_witness :
  "status/gitr/small" ≠ ""
  ∧ ("main" ∉ split os_sep_char "status/gitr/small")
  ∧ ∃ d, d ∈ sample_tree "target/criterion" ∧ records "main" d "status/gitr/small".
Proof.
  apply (find_baselines_key_origin sample_tree "target/criterion" "main" sample_base).
  - vm_compute. reflexivity.
  - exists 100. vm_compute. reflexivity.
Defined.

(** X3. A loaded snapshot holds, under each key, the timing of the last
    directory of the walk that records under that key: a later directory
    with the same identity overwrites an earlier one, and nothing else is
    in the snapshot. *)
Theorem find_baselines_last_wins
    (os_walk : string → list walk_entry) (criterion_dir baseline_name : string)
    (results : gmap string float) (key : string) (v : float) :
  find_baselines os_walk criterion_dir baseline_name = Ok results →
  results !! key = Some v
  ↔ ∃ t1 d t2, os_walk criterion_dir = (t1 ++ d :: t2)%list
               ∧ records baseline_name d key
               ∧ estimates d = PointEstimate v
               ∧ ∀ d', d' ∈ t2 → ¬ records baseline_name d' key.
Proof.
  intros Hload. unfold find_baselines in Hload.
  rewrite (loader_loop_lookup _ _ _ _ key v Hload). split.
  - intros [H|[Hempty _]]; [done|]. by rewrite lookup_empty in Hempty.
  - intros H. by left.
Qed.

Lemma find_baselines_last_wins_witness :
  sample_twice_snapshot !! "init/gitr" = Some 250.
Proof.
  refine (proj2 (find_baselines_last_wins sample_twice_tree "target/criterion" "main"
                   sample_twice_snapshot "init/gitr" 250 _) _).
  - vm_compute. reflexivity.
  - exists [ {| rel := "init/gitr/main"; files := ["estimates.json"];
                estimates := PointEstimate 300 |};
             {| rel := "init/gitr/old"; files := ["estimates.json"];
                estimates := Malformed |} ],
           {| rel := "init/gitr/main/new"; files := ["estimates.json"];
              estimates := PointEstimate 250 |}, [].
    split; [reflexivity|]. split; [|split; [reflexivity|by intros d' ?%elem_of_nil]].
    split; [by left|]. exists ["init"; "gitr"], ["new"].
    split; [reflexivity|]. split; [|by split].
    intros H. apply list_elem_of_In in H. simpl in H. intuition discriminate.
Defined.

(** X4. A malformed data file in a directory that records a timing for the
    base or for the candidate baseline ends the run on that error, before
    the test for a missing baseline and before any file is written. *)
Theorem main_malformed_data
    (str_float fmt_2f fmt_0f : float → string)
    (os_walk : string → list walk_entry) (args : Args)
    (d : walk_entry) (key : string) :
  d ∈ os_walk (criterion_dir args) →
  records (base args) d key ∨ records (pr args) d key →
  estimates d = Malformed →
  main str_float fmt_2f fmt_0f os_walk args = Uncaught MalformedData []
  ∧ exit_status (main str_float fmt_2f fmt_0f os_walk args) = 1%Z
  ∧ artifacts (main str_float fmt_2f fmt_0f os_walk args) = [].
Proof.
  intros Hd Hrec Hbad.
  assert (Hm : main str_float fmt_2f fmt_0f os_walk args = Uncaught MalformedData []).
  { unfold main.
    destruct (find_baselines os_walk (criterion_dir args) (base args))
      as [base_results|e] eqn:Hbase.
    - destruct Hrec as [Hrec|Hrec].
      + unfold find_baselines in Hbase.
        by rewrite (loader_loop_malformed _ _ _ _ _ Hd Hrec Hbad) in Hbase.
      + unfold find_baselines at 1.
        by rewrite (loader_loop_malformed _ _ _ _ _ Hd Hrec Hbad).
    - unfold find_baselines in Hbase. by rewrite (loader_loop_exn _ _ _ _ Hbase). }
  by rewrite Hm.
Qed.

Lemma main_malformed_data_witness :
  main no_digits no_digits no_digits sample_broken_tree sample_args
  = Uncaught MalformedData [].
Proof.
  refine (proj1 (main_malformed_data no_digits no_digits no_digits sample_broken_tree
            sample_args {| rel := "init/gitr/pr"; files := ["estimates.json"];
                           estimates := Malformed |} "init/gitr" _ _ _)).
  - right. by left.
  - right. split; [by left|]. exists ["init"; "gitr"], [].
    split; [reflexivity|]. split; [|by split].
    intros H. apply list_elem_of_In in H. simpl in H. intuition discriminate.
  - reflexivity.
Defined.

(** * Further properties of the filter and of the formatting of timings *)

(** X5. The filter on a joined identity is a test on its segments: for an
    identity with at least one segment, none containing the separator, the
    joined key passes exactly when some segment is ["gitr"] or begins with
    ["gitr_"]. *)
Theorem is_gitr_bench_join (pre : list string) :
  pre ≠ [] →
  Forall (λ p, str_contains os_sep_char p = false) pre →
  is_gitr_bench (join os_sep pre) = true
  ↔ ∃ p, p ∈ pre ∧ (p = "gitr" ∨ ∃ rest, p = "gitr_" ++ rest).
Proof.
  intros Hne Hns. rewrite is_gitr_bench_simple_eq. unfold is_gitr_bench_simple.
  rewrite split_join by done. rewrite existsb_exists. split.
  - intros (p & Hin & Hp). exists p. split; [by apply list_elem_of_In|].
    unfold gitr_segment_simple, startswith in Hp.
    apply orb_true_iff in Hp as [Hp|Hp].
    + left. by apply String.eqb_eq.
    + right. by apply prefix_app_iff.
  - intros (p & Hin & Hp). exists p. split; [by apply list_elem_of_In|].
    unfold gitr_segment_simple, startswith. destruct Hp as [->|Hp]; [done|].
    apply prefix_app_iff in Hp. rewrite Hp. apply orb_true_r.
Qed.

Lemma is_gitr_bench_join_witness :
  is_gitr_bench (join os_sep ["cat-file"; "gitr_-p"; "small"]) = true.
Proof.
  apply (is_gitr_bench_join ["cat-file"; "gitr_-p"; "small"]).
  - done.
  - repeat constructor.
  - exists "gitr_-p". split; [by right; left|]. right. by exists "-p".
Defined.

Lemma SFcompare_antisym (x y : spec_float) :
  SFcompare y x = CompOpp <$> SFcompare x y.
Proof.
  destruct x as [[]|[]| |[] mx ex], y as [[]|[]| |[] my ey]; simpl; try done;
    change (PosDef.Pos.compare_cont Eq mx my) with (Pos.compare mx my);
    change (PosDef.Pos.compare_cont Eq my mx) with (Pos.compare my mx);
    rewrite (Z.compare_antisym ex ey), (Pos.compare_antisym mx my);
    destruct (ex ?= ey)%Z, (mx ?= my)%positive; done.
Qed.

Lemma float_ltb_not_leb (x y : float) :
  (x <? y) = true → (y <=? x) = false.
Proof.
  to_spec_float. unfold SFltb, SFleb.
  rewrite (SFcompare_antisym (Prim2SF x) (Prim2SF y)).
  destruct (SFcompare (Prim2SF x) (Prim2SF y)) as [[]|]; done.
Qed.

Lemma SFltb_trans (x y z : spec_float) :
  SFltb x y = true → SFltb y z = true → SFltb x z = true.
Proof.
  unfold SFltb.
  destruct x as [[]|[]| |[] mx ex], y as [[]|[]| |[] my ey], z as [[]|[]| |[] mz ez];
    simpl; try done;
    change (PosDef.Pos.compare_cont Eq mx my) with (Pos.compare mx my);
    change (PosDef.Pos.compare_cont Eq my mz) with (Pos.compare my mz);
    change (PosDef.Pos.compare_cont Eq mx mz) with (Pos.compare mx mz);
    destruct (Z.compare_spec ex ey), (Z.compare_spec ey ez), (Z.compare_spec ex ez);
    try done; try lia; subst;
    destruct (Pos.compare_spec mx my), (Pos.compare_spec my mz),
             (Pos.compare_spec mx mz); simpl; try done; lia.
Qed.

Lemma float_ltb_trans (x y z : float) :
  (x <? y) = true → (y <? z) = true → (x <? z) = true.
Proof. to_spec_float. apply SFltb_trans. Qed.

Lemma is_nan_Prim2SF (x : float) : is_nan x = true → Prim2SF x = S754_nan.
Proof.
  unfold is_nan. rewrite FloatAxioms.eqb_spec. unfold SFeqb.
  destruct (Prim2SF x) as [[]|[]| |[] m e]; simpl; try done;
    change (PosDef.Pos.compare_cont Eq m m) with (Pos.compare m m);
    by rewrite Z.compare_refl, Pos.compare_refl.
Qed.

Lemma float_nan_not_geb (c x : float) : is_nan x = true → (c <=? x) = false.
Proof.
  intros Hnan. rewrite leb_spec, (is_nan_Prim2SF x Hnan). unfold SFleb.
  by destruct (Prim2SF c) as [[]|[]| |[] ? ?].
Qed.

(** X6. The unit of a rendered timing is decided by its band: seconds from
    1e9, milliseconds from 1e6 and below 1e9, microseconds from 1000 and
    below 1e6, each scaled and with two decimals; below 1000 (negative
    timings included), and for a NaN, the timing itself with no decimal and
    the unit ns. *)
Theorem format_ns_bands (fmt_2f fmt_0f : float → string) (ns : float) :
  ((1000000000 <=? ns) = true →
     format_ns fmt_2f fmt_0f ns = fmt_2f (ns / 1000000000) ++ "s")
  ∧ ((1000000 <=? ns) = true → (ns <? 1000000000) = true →
     format_ns fmt_2f fmt_0f ns = fmt_2f (ns / 1000000) ++ "ms")
  ∧ ((1000 <=? ns) = true → (ns <? 1000000) = true →
     format_ns fmt_2f fmt_0f ns = fmt_2f (ns / 1000) ++ "us")
  ∧ ((ns <? 1000) = true ∨ is_nan ns = true →
     format_ns fmt_2f fmt_0f ns = fmt_0f ns ++ "ns").
Proof.
  unfold format_ns. repeat split.
  - by intros ->.
  - intros Hge Hlt. by rewrite (float_ltb_not_leb _ _ Hlt), Hge.
  - intros Hge Hlt.
    assert (Hlt9 : (ns <? 1000000000) = true)
      by (apply (float_ltb_trans _ 1000000); [done|reflexivity]).
    by rewrite (float_ltb_not_leb _ _ Hlt9), (float_ltb_not_leb _ _ Hlt), Hge.
  - intros [Hlt|Hnan].
    + assert (Hlt6 : (ns <? 1000000) = true)
        by (apply (float_ltb_trans _ 1000); [done|reflexivity]).
      assert (Hlt9 : (ns <? 1000000000) = true)
        by (apply (float_ltb_trans _ 1000000); [done|reflexivity]).
      by rewrite (float_ltb_not_leb _ _ Hlt9), (float_ltb_not_leb _ _ Hlt6),
                 (float_ltb_not_leb _ _ Hlt).
    + by rewrite !(float_nan_not_geb _ ns Hnan).
Qed.

Lemma format_ns_bands_witness :
  format_ns no_digits no_digits 1500 = no_digits (1500 / 1000) ++ "us".
Proof.
  apply (format_ns_bands no_digits no_digits 1500); reflexivity.
Defined.

(** * Further properties of the report and of [main] *)

Lemma status_counts (results : list result) :
  (length (filter (has_status REGRESSION) results)
   + length (filter (has_status IMPROVEMENT) results)
   + length (filter (has_status OK) results)
   + length (filter (has_status NEW) results)
   + length (filter (has_status REMOVED) results)
   = length results)%nat.
Proof.
  induction results as [|r results IH]; [done|].
  rewrite !filter_cons.
  repeat (destruct (decide (has_status _ r)) as [?|?]); unfold has_status in *;
    destruct (status r); try done; simpl; lia.
Qed.

Lemma has_regression_iff (results : list result) :
  bool_decide (0 < length (filter (has_status REGRESSION) results))%nat = true
  ↔ ∃ r, r ∈ results ∧ status r = REGRESSION.
Proof.
  rewrite bool_decide_eq_true. split.
  - destruct (filter (has_status REGRESSION) results) as [|r l] eqn:Hf; [simpl; lia|].
    intros _. exists r.
    assert (Hr : r ∈ filter (has_status REGRESSION) results) by (rewrite Hf; by left).
    by apply list_elem_of_filter in Hr as [? ?].
  - intros (r & Hin & Hst).
    assert (Hr : r ∈ filter (has_status REGRESSION) results)
      by (by apply list_elem_of_filter).
    destruct (filter (has_status REGRESSION) results); [by apply elem_of_nil in Hr|].
    simpl. lia.
Qed.

(** X7. Whatever the results, the report writes the JSON document first,
    with the threshold of the run, the list of results unchanged, their
    number as total, and the regression flag set exactly when a result is a
    REGRESSION; the regressions and improvements it counts, with the OK,
    NEW and REMOVED results, add up to the total. *)
Theorem report_json_document
    (str_float fmt_2f fmt_0f : float → string) (args : Args) (results : list result) :
  ∃ j rest,
    artifacts (report str_float fmt_2f fmt_0f args results)
    = ("bench-results.json", JsonDoc j) :: rest
    ∧ json_threshold j = threshold args
    ∧ json_results j = results
    ∧ json_total j = length results
    ∧ (json_has_regression j = true ↔ ∃ r, r ∈ results ∧ status r = REGRESSION)
    ∧ json_regressions j = length (filter (has_status REGRESSION) results)
    ∧ json_improvements j = length (filter (has_status IMPROVEMENT) results)
    ∧ (json_regressions j + json_improvements j
       + length (filter (has_status OK) results)
       + length (filter (has_status NEW) results)
       + length (filter (has_status REMOVED) results)
       = json_total j)%nat.
Proof.
  pose proof (status_counts results) as Hsum.
  pose proof (has_regression_iff results) as Hflag.
  unfold report.
  destruct (table_rows _ _ _ (filter (has_status REGRESSION) results));
    [|destruct (table_rows _ _ _ (filter (has_status IMPROVEMENT) results));
      [|destruct (forallb encodable (map benchmark results))]];
    (eexists _, _; split; [reflexivity|];
     cbn [json_threshold json_results json_total json_has_regression
          json_regressions json_improvements];
     split; [reflexivity|]; split; [reflexivity|]; split; [reflexivity|];
     split; [exact Hflag|]; split; [reflexivity|]; split; [reflexivity|exact Hsum]).
Qed.

Lemma report_files str_float fmt_2f fmt_0f args thr base_results pr_results results :
  comparator thr base_results pr_results = Ok results →
  forallb encodable (map benchmark results) = true →
  ∃ md_content stdout,
    report str_float fmt_2f fmt_0f args results
    = Finished
        [ ("bench-results.json",
           JsonDoc {| json_has_regression :=
                        bool_decide (0 < length (filter (has_status REGRESSION) results))%nat;
                      json_threshold := threshold args;
                      json_total := length results;
                      json_regressions := length (filter (has_status REGRESSION) results);
                      json_improvements := length (filter (has_status IMPROVEMENT) results);
                      json_results := results |});
          ("bench-results.md", Text md_content) ]
        stdout.
Proof.
  intros Hc Henc.
  destruct (report_finishes str_float fmt_2f fmt_0f args _ _ _ _ Hc Henc)
    as (w & out & Hfin).
  revert Hfin. unfold report.
  destruct (table_rows _ _ _ (filter (has_status REGRESSION) results)); [done|].
  destruct (table_rows _ _ _ (filter (has_status IMPROVEMENT) results)); [done|].
  rewrite Henc. intros _. by eexists _, _.
Qed.

(** X8. How a run leaves the two files: with status 0 it has written the
    JSON document and then the markdown text; with status 1 it has written
    nothing, or else the JSON document and an empty markdown file, which
    happens when the key of some result cannot be encoded. *)
Theorem main_files_written
    (str_float fmt_2f fmt_0f : float → string)
    (os_walk : string → list walk_entry) (args : Args) :
  (exit_status (main str_float fmt_2f fmt_0f os_walk args) = 0%Z
   ∧ ∃ j md_content,
       artifacts (main str_float fmt_2f fmt_0f os_walk args)
       = [("bench-results.json", JsonDoc j); ("bench-results.md", Text md_content)])
  ∨ (exit_status (main str_float fmt_2f fmt_0f os_walk args) = 1%Z
     ∧ artifacts (main str_float fmt_2f fmt_0f os_walk args) = [])
  ∨ (exit_status (main str_float fmt_2f fmt_0f os_walk args) = 1%Z
     ∧ ∃ j, artifacts (main str_float fmt_2f fmt_0f os_walk args)
            = [("bench-results.json", JsonDoc j); ("bench-results.md", Text "")]
            ∧ ∃ r, r ∈ json_results j ∧ encodable (benchmark r) = false).
Proof.
  unfold main.
  destruct (find_baselines os_walk (criterion_dir args) (base args)); [|by right; left].
  destruct (find_baselines os_walk (criterion_dir args) (pr args)); [|by right; left].
  destruct (decide (_ = ∅)); [by right; left|].
  destruct (decide (_ = ∅)); [by right; left|].
  destruct (comparator _ _ _) as [results|e] eqn:Hc; [|by right; left].
  destruct (forallb encodable (map benchmark results)) eqn:Henc.
  - destruct (report_files str_float fmt_2f fmt_0f args _ _ _ _ Hc Henc) as (md & out & ->).
    left. split; [done|]. by eexists _, _.
  - destruct (report_not_encodable str_float fmt_2f fmt_0f args _ _ _ _ Hc Henc)
      as (j & -> & Hj).
    right; right. split; [done|]. exists j. split; [done|]. rewrite Hj.
    apply not_true_iff_false in Henc. rewrite forallb_forall in Henc.
    destruct (decide (Forall (λ r, encodable (benchmark r) = true) results))
      as [Hall|Hnot].
    + destruct Henc. intros key Hkey. apply in_map_iff in Hkey as (r & <- & Hr).
      apply (proj1 (Forall_forall _ _) Hall). by apply list_elem_of_In.
    + apply not_Forall_Exists in Hnot; [|apply _].
      apply Exists_exists in Hnot as (r & Hr & Hbad).
      exists r. split; [done|]. by apply not_true_is_false.
Qed.

(** * Further properties of the comparator *)

Lemma classify_regression threshold pct :
  classify threshold pct = REGRESSION ↔ (threshold <? pct) = true.
Proof.
  unfold classify. destruct (threshold <? pct); [done|].
  destruct (pct <? - threshold); done.
Qed.

Lemma length_filter_all_keys (base_results pr_results : gmap string float) :
  length (filter passes (all_keys base_results pr_results))
  = size (filter passes (dom base_results ∪ dom pr_results)).
Proof.
  unfold size, set_size. simpl. apply Permutation_length, NoDup_Permutation.
  - apply NoDup_filter, NoDup_all_keys.
  - apply NoDup_elements.
  - intros key. rewrite list_elem_of_filter, elem_of_all_keys.
    rewrite elem_of_elements, elem_of_filter. done.
Qed.

Lemma results_encodable threshold base_results pr_results results :
  comparator threshold base_results pr_results = Ok results →
  (∀ key, key ∈ dom base_results ∪ dom pr_results → is_gitr_bench key = true →
          encodable key = true) →
  forallb encodable (map benchmark results) = true.
Proof.
  intros Hc Henc. apply forallb_forall. intros key Hkey.
  apply in_map_iff in Hkey as (r & <- & Hr). apply list_elem_of_In in Hr.
  rewrite (comparator_Ok_inv _ _ _ _ Hc) in Hr.
  apply list_elem_of_fmap in Hr as (key & -> & Hkey).
  apply list_elem_of_filter in Hkey as [Hg Hkey].
  rewrite benchmark_entry_of. apply Henc; [by apply elem_of_all_keys|done].
Qed.

(** X9. When both snapshots are loaded and non-empty, no compared base
    timing is zero and every key that passes the filter can be encoded, the
    run finishes with both files written; the document flags a regression
    exactly when some key that passes the filter is in both snapshots with
    a change above the threshold, and its total is the number of keys of
    either snapshot that pass the filter. *)
Theorem main_regression_flag
    (str_float fmt_2f fmt_0f : float → string)
    (os_walk : string → list walk_entry) (args : Args)
    (base_results pr_results : gmap string float) :
  find_baselines os_walk (criterion_dir args) (base args) = Ok base_results →
  find_baselines os_walk (criterion_dir args) (pr args) = Ok pr_results →
  base_results ≠ ∅ → pr_results ≠ ∅ →
  (∀ key b, is_gitr_bench key = true → base_results !! key = Some b →
            is_Some (pr_results !! key) → (b =? 0) = false) →
  (∀ key, key ∈ dom base_results ∪ dom pr_results → is_gitr_bench key = true →
          encodable key = true) →
  ∃ j md_content stdout,
    main str_float fmt_2f fmt_0f os_walk args
    = Finished [("bench-results.json", JsonDoc j); ("bench-results.md", Text md_content)]
               stdout
    ∧ (json_has_regression j = true
       ↔ ∃ key b p, is_gitr_bench key = true
                    ∧ base_results !! key = Some b
                    ∧ pr_results !! key = Some p
                    ∧ (threshold args <? (p - b) / b * 100) = true)
    ∧ json_total j = size (filter passes (dom base_results ∪ dom pr_results)).
Proof.
  intros Hbase Hpr Hb Hp Hnz Henc.
  assert (Hz : ∀ key, key ∈ all_keys base_results pr_results → is_gitr_bench key = true →
                      zero_base base_results pr_results key = false).
  { intros key _ Hg. unfold zero_base.
    destruct (base_results !! key) as [b|] eqn:Hbk; [|done].
    destruct (pr_results !! key) as [p|] eqn:Hpk; [|done].
    apply (Hnz key b Hg Hbk). by rewrite Hpk. }
  pose proof (for_each_compare_ok (threshold args) _ _ _ [] Hz) as Hc.
  rewrite app_nil_l in Hc. fold (comparator (threshold args) base_results pr_results) in Hc.
  destruct (report_files str_float fmt_2f fmt_0f args _ _ _ _ Hc
              (results_encodable _ _ _ _ Hc Henc)) as (md & out & Hrep).
  eexists _, md, out. split; [|split].
  - unfold main. rewrite Hbase, Hpr.
    rewrite decide_False by done. rewrite decide_False by done.
    rewrite Hc. exact Hrep.
  - cbn [json_has_regression]. rewrite has_regression_iff. split.
    + intros (r & Hr & Hst).
      apply list_elem_of_fmap in Hr as (key & -> & Hkey).
      apply list_elem_of_filter in Hkey as [Hg _]. unfold entry_of in Hst.
      destruct (base_results !! key) as [b|] eqn:Hbk; [|done].
      destruct (pr_results !! key) as [p|] eqn:Hpk; [|done].
      exists key, b, p. repeat split; try done. by apply classify_regression.
    + intros (key & b & p & Hg & Hbk & Hpk & Habove).
      exists (entry_of (threshold args) base_results pr_results key). split.
      * apply list_elem_of_fmap. exists key. split; [done|].
        apply list_elem_of_filter. split; [done|].
        apply elem_of_all_keys, elem_of_union. left. apply elem_of_dom. by exists b.
      * unfold entry_of. rewrite Hbk, Hpk. by apply classify_regression.
  - cbn [json_total]. by rewrite length_fmap, length_filter_all_keys.
Qed.

Lemma main_regression_flag_witness :
  ∃ j md_content stdout,
    main no_digits no_digits no_digits sample_tree sample_args
    = Finished [("bench-results.json", JsonDoc j); ("bench-results.md", Text md_content)]
               stdout
    ∧ (json_has_regression j = true
       ↔ ∃ key b p, is_gitr_bench key = true
                    ∧ sample_base !! key = Some b
                    ∧ sample_pr !! key = Some p
                    ∧ (threshold sample_args <? (p - b) / b * 100) = true)
    ∧ json_total j = size (filter passes (dom sample_base ∪ dom sample_pr)).
Proof.
  apply (main_regression_flag no_digits no_digits no_digits sample_tree sample_args
           sample_base sample_pr).
  - vm_compute. reflexivity.
  - vm_compute. reflexivity.
  - intros H. apply (f_equal (λ m : gmap string float, m !! "status/gitr/small")) in H.
    vm_compute in H. discriminate.
  - intros H. apply (f_equal (λ m : gmap string float, m !! "status/gitr/small")) in H.
    vm_compute in H. discriminate.
  - intros key b Hg Hbk _. unfold sample_base in Hbk.
    apply lookup_insert_Some in Hbk as [[<- <-]|[_ Hbk]]; [discriminate Hg|].
    apply lookup_insert_Some in Hbk as [[<- <-]|[_ Hbk]]; [reflexivity|].
    by rewrite lookup_empty in Hbk.
  - intros key Hkey _. unfold sample_base, sample_pr in Hkey.
    rewrite !dom_insert_L, dom_empty_L in Hkey.
    repeat (apply elem_of_union in Hkey as [Hkey|Hkey]);
      try (apply elem_of_singleton in Hkey as ->; reflexivity);
      by apply elem_of_empty in Hkey.
Defined.

Lemma all_keys_comm (base_results pr_results : gmap string float) :
  all_keys pr_results base_results = all_keys base_results pr_results.
Proof. unfold all_keys. by rewrite (union_comm_L (dom pr_results)). Qed.

(** X10. When the comparison completes in both directions, exchanging the
    two snapshots gives results for the same keys in the same order, with
    the two timings exchanged, where NEW becomes REMOVED and REMOVED
    becomes NEW. *)
Theorem comparator_swap
    (threshold threshold' : float) (base_results pr_results : gmap string float)
    (results results' : list result) :
  comparator threshold base_results pr_results = Ok results →
  comparator threshold' pr_results base_results = Ok results' →
  Forall2 (λ r r', benchmark r = benchmark r'
                   ∧ base_ns r = pr_ns r' ∧ pr_ns r = base_ns r'
                   ∧ (status r = NEW ↔ status r' = REMOVED)
                   ∧ (status r = REMOVED ↔ status r' = NEW))
          results results'.
Proof.
  intros Hc Hc'.
  rewrite (comparator_Ok_inv _ _ _ _ Hc), (comparator_Ok_inv _ _ _ _ Hc'), all_keys_comm.
  apply Forall2_fmap, Forall_Forall2_diag, Forall_forall.
  intros key Hkey. apply list_elem_of_filter in Hkey as [_ Hkey].
  apply elem_of_all_keys, elem_of_union in Hkey. rewrite !elem_of_dom in Hkey.
  unfold entry_of.
  destruct (base_results !! key) as [b|] eqn:Hb, (pr_results !! key) as [p|] eqn:Hp;
    simpl.
  - repeat split; try done; unfold classify;
      intros H; repeat (destruct (_ <? _) in H); done.
  - by repeat split.
  - by repeat split.
  - destruct Hkey as [[? ?]|[? ?]]; done.
Qed.

Lemma comparator_swap_witness :
  Forall2 (λ r r', benchmark r = benchmark r'
                   ∧ base_ns r = pr_ns r' ∧ pr_ns r = base_ns r'
                   ∧ (status r = NEW ↔ status r' = REMOVED)
                   ∧ (status r = REMOVED ↔ status r' = NEW))
          [ {| benchmark := "status/gitr/small"; base_ns := Some 100; pr_ns := None;
               pct_change := None; status := REMOVED |} ]
          [ {| benchmark := "status/gitr/small"; base_ns := None; pr_ns := Some 100;
               pct_change := None; status := NEW |} ].
Proof.
  apply (comparator_swap 5 5 sample_base sample_git_pr); vm_compute; reflexivity.
Defined.

Lemma nan_change_SF (b p : float) :
  is_nan b = true ∨ is_nan p = true →
  Prim2SF ((p - b) / b * 100) = S754_nan.
Proof.
  intros Hnan. rewrite mul_spec, div_spec, sub_spec.
  unfold SF64mul, SF64div, SF64sub.
  destruct Hnan as [Hb|Hp].
  - rewrite (is_nan_Prim2SF b Hb).
    by destruct (Prim2SF p) as [[]|[]| |[] ? ?].
  - rewrite (is_nan_Prim2SF p Hp). done.
Qed.

Lemma Prim2SF_nan_is_nan (x : float) : Prim2SF x = S754_nan → is_nan x = true.
Proof. intros H. unfold is_nan. by rewrite FloatAxioms.eqb_spec, H. Qed.

(** X11. A NaN timing is not an error and is never flagged: for a key that
    passes the filter, with a NaN base timing, or a NaN candidate timing
    and a base timing that is not zero, the loop appends an entry with
    status OK and a NaN change, whatever the threshold. *)
Theorem compare_step_nan
    (threshold : float) (base_results pr_results : gmap string float)
    (results : list result) (key : string) (b p : float) :
  is_gitr_bench key = true →
  base_results !! key = Some b →
  pr_results !! key = Some p →
  is_nan b = true ∨ (is_nan p = true ∧ (b =? 0) = false) →
  ∃ c, is_nan c = true
       ∧ compare_step threshold base_results pr_results results key
         = Ok (results ++ [ {| benchmark := key; base_ns := Some b; pr_ns := Some p;
                               pct_change := Some c; status := OK |} ])%list.
Proof.
  intros Hg Hb Hp Hnan.
  assert (Hnz : (b =? 0) = false).
  { destruct Hnan as [Hbn|[_ ?]]; [|done].
    by rewrite FloatAxioms.eqb_spec, (is_nan_Prim2SF b Hbn). }
  assert (Hpct : Prim2SF ((p - b) / b * 100) = S754_nan).
  { apply nan_change_SF. destruct Hnan as [?|[? _]]; [by left|by right]. }
  exists ((p - b) / b * 100). split; [by apply Prim2SF_nan_is_nan|].
  unfold compare_step, py_div. rewrite Hg, Hb, Hp, Hnz. simpl.
  do 4 f_equal.
  - unfold round2. by rewrite Hpct.
  - unfold classify. rewrite !ltb_spec, Hpct. unfold SFltb.
    by destruct (Prim2SF threshold) as [[]|[]| |[] ? ?].
Qed.

Lemma compare_step_nan_witness :
  ∃ c, is_nan c = true
       ∧ compare_step 5 sample_nan_base sample_zero_pr [] "init/gitr"
         = Ok [ {| benchmark := "init/gitr"; base_ns := Some nan; pr_ns := Some 250;
                   pct_change := Some c; status := OK |} ].
Proof.
  apply (compare_step_nan 5 sample_nan_base sample_zero_pr [] "init/gitr" nan 250);
    try reflexivity.
  by left.
Defined.



Lemma SFleb_ltb_trans (x y z : spec_float) :
  SFleb x y = true → SFltb y z = true → SFltb x z = true.
Proof.
  unfold SFleb, SFltb.
  destruct x as [[]|[]| |[] mx ex], y as [[]|[]| |[] my ey], z as [[]|[]| |[] mz ez];
    simpl; try done;
    change (PosDef.Pos.compare_cont Eq mx my) with (Pos.compare mx my);
    change (PosDef.Pos.compare_cont Eq my mz) with (Pos.compare my mz);
    change (PosDef.Pos.compare_cont Eq mx mz) with (Pos.compare mx mz);
    destruct (Z.compare_spec ex ey), (Z.compare_spec ey ez), (Z.compare_spec ex ez);
    try done; try lia; subst;
    destruct (Pos.compare_spec mx my), (Pos.compare_spec my mz),
             (Pos.compare_spec mx mz); simpl; try done; lia.
Qed.

(** X13. Lowering the threshold never removes a regression: run on the same
    snapshots with a threshold at most the other, the comparator gives
    results for the same keys, and every result that is a REGRESSION at the
    higher threshold is one at the lower. *)
Theorem comparator_threshold_monotone
    (threshold threshold' : float) (base_results pr_results : gmap string float)
    (results results' : list result) :
  (threshold <=? threshold') = true →
  comparator threshold base_results pr_results = Ok results →
  comparator threshold' base_results pr_results = Ok results' →
  Forall2 (λ r r', benchmark r = benchmark r'
                   ∧ pct_change r = pct_change r'
                   ∧ (status r' = REGRESSION → status r = REGRESSION))
          results results'.
Proof.
  intros Hle Hc Hc'.
  rewrite (comparator_Ok_inv _ _ _ _ Hc), (comparator_Ok_inv _ _ _ _ Hc').
  apply Forall2_fmap, Forall_Forall2_diag, Forall_forall.
  intros key _. unfold entry_of.
  destruct (base_results !! key) as [b|], (pr_results !! key) as [p|]; simpl;
    try by repeat split.
  repeat split. rewrite !classify_regression. revert Hle.
  rewrite !ltb_spec, leb_spec. apply SFleb_ltb_trans.
Qed.

Lemma comparator_threshold_monotone_witness :
  Forall2 (λ r r', benchmark r = benchmark r'
                   ∧ pct_change r = pct_change r'
                   ∧ (status r' = REGRESSION → status r = REGRESSION))
          [ {| benchmark := "status/gitr/small"; base_ns := Some 100; pr_ns := Some 106;
               pct_change := Some 6; status := REGRESSION |} ]
          [ {| benchmark := "status/gitr/small"; base_ns := Some 100; pr_ns := Some 106;
               pct_change := Some 6; status := OK |} ].
Proof.
  apply (comparator_threshold_monotone 5 10 sample_base sample_pr);
    vm_compute; reflexivity.
Defined.

(** X14. With a NaN threshold nothing is flagged: every result of the
    comparator is OK, NEW or REMOVED. *)
Theorem comparator_nan_threshold
    (threshold : float) (base_results pr_results : gmap string float)
    (results : list result) :
  is_nan threshold = true →
  comparator threshold base_results pr_results = Ok results →
  Forall (λ r, status r = OK ∨ status r = NEW ∨ status r = REMOVED) results.
Proof.
  intros Hnan Hc. rewrite (comparator_Ok_inv _ _ _ _ Hc).
  apply Forall_fmap, Forall_forall. intros key _. simpl. unfold entry_of.
  destruct (base_results !! key) as [b|], (pr_results !! key) as [p|]; simpl; auto.
  left. unfold classify.
  rewrite !ltb_spec, opp_spec, (is_nan_Prim2SF threshold Hnan). simpl.
  unfold SFltb. by destruct (Prim2SF _) as [[]|[]| |[] ? ?].
Qed.

Lemma comparator_nan_threshold_witness :
  Forall (λ r, status r = OK ∨ status r = NEW ∨ status r = REMOVED)
         [ {| benchmark := "status/gitr/small"; base_ns := Some 100; pr_ns := Some 106;
              pct_change := Some 6; status := OK |} ].
Proof.
  apply (comparator_nan_threshold nan sample_base sample_pr); vm_compute; reflexivity.
Defined.

(** * The comparison on every pair of snapshots *)

(** Claim C2 fails when a compared base timing is zero: the comparison
    raises, and a key of the union that passes the filter, here ["a/gitr"],
    is in no result. *)
Lemma comparator_zero_base_no_result :
  is_gitr_bench "a/gitr" = true
  ∧ sample_partial_base !! "a/gitr" = Some 1
  ∧ sample_zero_pr !! "a/gitr" = None
  ∧ comparator 5 sample_partial_base sample_zero_pr = Raise ZeroDivisionError.
Proof. repeat split; vm_compute; reflexivity. Qed.

(** * The loader on the directories of the walk *)

Lemma for_each_app {S X : Type} (body : S → X → res S) (l1 l2 : list X) (s : S) :
  for_each body (l1 ++ l2) s = for_each body l1 s ≫= for_each body l2.
Proof.
  revert s. induction l1 as [|x l1 IH]; intros s; [done|].
  cbn [for_each app]. destruct (body s x) as [s'|e]; simpl; [apply IH|done].
Qed.

Lemma loader_loop_keeps baseline_name tree (acc results : gmap string float) key :
  for_each (find_baselines_step baseline_name) tree acc = Ok results →
  is_Some (acc !! key) → is_Some (results !! key).
Proof.
  revert acc. induction tree as [|d tree IH]; intros acc Hrun Hkey.
  - by injection Hrun as <-.
  - cbn [for_each] in Hrun.
    destruct (find_baselines_step baseline_name acc d) as [acc'|] eqn:Hstep; [|done].
    simpl in Hrun. apply (IH acc' Hrun).
    apply find_baselines_step_Ok in Hstep as [->|(pre & post & v & _ & _ & _ & _ & _ & ->)];
      [done|].
    destruct (decide (join os_sep pre = key)) as [->|Hne].
    + rewrite lookup_insert_eq. by eexists.
    + by rewrite lookup_insert_ne.
Qed.

(** Claim C3. The load of a baseline, at a directory of the walk that lists
    [estimates.json], with the segments of its relative path. When the
    baseline name is not a segment, or is the first one, the directory is
    skipped: the load is the load of the walk without it. Otherwise the
    identity is made of the segments [pre] before the first occurrence of
    the baseline name, which the key that joins them splits back into, and
    the point estimate of the file is recorded under that key in the
    snapshot reached by the directories before, the load going on from
    there: a snapshot that the load returns holds the key, with that
    estimate unless a later directory records under the same key. *)
Theorem find_baselines_directory
    (os_walk : string → list walk_entry) (criterion_dir baseline_name : string)
    (t1 : list walk_entry) (d : walk_entry) (t2 : list walk_entry) :
  os_walk criterion_dir = (t1 ++ d :: t2)%list →
  "estimates.json" ∈ files d →
  relpath_wf (rel d) →
  let parts := split os_sep_char (rel d) in
  let load := find_baselines os_walk criterion_dir baseline_name in
  let go_on := for_each (find_baselines_step baseline_name) t2 in
  (baseline_name ∉ parts →
     load = for_each (find_baselines_step baseline_name) (t1 ++ t2) ∅)
  ∧ (∀ pre post, parts = (pre ++ baseline_name :: post)%list → baseline_name ∉ pre →
       (pre = [] → load = for_each (find_baselines_step baseline_name) (t1 ++ t2) ∅)
       ∧ (pre ≠ [] →
            split os_sep_char (join os_sep pre) = pre
            ∧ ∀ v, estimates d = PointEstimate v →
                load = for_each (find_baselines_step baseline_name) t1 ∅
                         ≫= (λ before, go_on (<[join os_sep pre := v]> before))
                ∧ ∀ results, load = Ok results →
                    is_Some (results !! join os_sep pre)
                    ∧ ((∀ d', d' ∈ t2 → ¬ records baseline_name d' (join os_sep pre)) →
                       results !! join os_sep pre = Some v))).
Proof.
  intros Hwalk Hfile Hwf parts load go_on.
  assert (Hload : load = for_each (find_baselines_step baseline_name) t1 ∅
                           ≫= (λ before, find_baselines_step baseline_name before d
                                           ≫= go_on)).
  { subst load. unfold find_baselines. by rewrite Hwalk, for_each_app. }
  assert (Hskip : (∀ acc, find_baselines_step baseline_name acc d = Ok acc) →
                  load = for_each (find_baselines_step baseline_name) (t1 ++ t2) ∅).
  { intros Hsame. rewrite Hload, for_each_app.
    destruct (for_each (find_baselines_step baseline_name) t1 ∅) as [acc|]; [|done].
    simpl. by rewrite Hsame. }
  split.
  - intros Hnot. apply Hskip. intros acc.
    by apply (find_baselines_step_identity baseline_name acc d Hfile Hwf).
  - intros pre post Hparts Hpre. split.
    + intros Hnil. apply Hskip. intros acc.
      by apply (proj2 (find_baselines_step_identity baseline_name acc d Hfile Hwf)
                  pre post Hparts Hpre).
    + intros Hne.
      pose proof (λ acc, proj2 (proj2 (find_baselines_step_identity baseline_name acc d
                    Hfile Hwf) pre post Hparts Hpre) Hne) as Hstep.
      split; [exact (proj1 (Hstep ∅))|].
      intros v Hv.
      assert (Hrec : load = for_each (find_baselines_step baseline_name) t1 ∅
                              ≫= (λ before, go_on (<[join os_sep pre := v]> before))).
      { rewrite Hload.
        destruct (for_each (find_baselines_step baseline_name) t1 ∅) as [acc|]; [|done].
        simpl. by rewrite (proj2 (Hstep acc) v Hv). }
      split; [exact Hrec|].
      intros results Hok. rewrite Hrec in Hok.
      destruct (for_each (find_baselines_step baseline_name) t1 ∅) as [acc|]; [|done].
      simpl in Hok. split.
      * apply (loader_loop_keeps _ _ _ _ _ Hok). rewrite lookup_insert_eq. by eexists.
      * intros Hlater. apply (loader_loop_lookup _ _ _ _ (join os_sep pre) v Hok).
        right. split; [apply lookup_insert_eq|done].
Qed.

Lemma find_baselines_directory_witness :
  find_baselines sample_twice_tree "target/criterion" "main"
  = for_each (find_baselines_step "main")
      [ {| rel := "init/gitr/main"; files := ["estimates.json"];
           estimates := PointEstimate 300 |};
        {| rel := "init/gitr/old"; files := ["estimates.json"];
           estimates := Malformed |} ] ∅
    ≫= (λ before, for_each (find_baselines_step "main") []
                    (<[join os_sep ["init"; "gitr"] := 250]> before)).
Proof.
  refine (proj1 (proj2 (proj2 (proj2 (find_baselines_directory sample_twice_tree
            "target/criterion" "main" _
            {| rel := "init/gitr/main/new"; files := ["estimates.json"];
               estimates := PointEstimate 250 |} [] _ _ _) ["init"; "gitr"] ["new"] _ _) _)
            250 _)).
  - reflexivity.
  - by left.
  - unfold relpath_wf. vm_compute. repeat constructor; done.
  - reflexivity.
  - intros H. apply list_elem_of_In in H. simpl in H. intuition discriminate.
  - done.
  - reflexivity.
Defined.

(** * The order of the rendered rows *)

Lemma table_rows_Forall2 fmt_2f fmt_0f change (rs : list result) (rows : list string) :
  table_rows fmt_2f fmt_0f change rs = inr rows →
  Forall2 (λ r row, table_row fmt_2f fmt_0f change r = inr row) rs rows.
Proof.
  revert rows. induction rs as [|r rs IH]; intros rows Hrows.
  - injection Hrows as <-. constructor.
  - cbn [table_rows] in Hrows.
    destruct (table_row fmt_2f fmt_0f change r) as [|row] eqn:Hrow; [done|].
    destruct (table_rows fmt_2f fmt_0f change rs) as [|rows'] eqn:Hrest; [done|].
    injection Hrows as <-. constructor; [done|by apply IH].
Qed.

Lemma table_lines_of_rows {A} (R : A → string → Prop) (rs : list A)
    (rows : list string) (title : string) :
  Forall2 R rs rows →
  match rs with
  | [] => []
  | _ :: _ => ([ title; "";
                 "| Benchmark | Base | PR | Change |";
                 "|-----------|------|-----|--------|" ]
               ++ rows ++ [ "" ])%list
  end = table_lines title rows.
Proof. by destruct 1. Qed.

(** Claim C5, as the code has it. The results are in the order of their keys
    compared as Python compares strings (code point by code point), with no
    key twice, and no other arrangement of these keys is in that order; each
    list taken from them by status keeps that order, and the
    list of the JSON document is the list of results itself. When the keys
    can be encoded, so that the markdown text is written, the rows of the
    regressions table are those of the regressions in that order, one row
    each, and likewise the rows of the improvements table, the names of the
    new and of the removed benchmarks, the rows of the table of all results
    and the console lines of the regressions. *)
Theorem comparator_sorted_by_key
    (threshold : float) (base_results pr_results : gmap string float)
    (results : list result) :
  comparator threshold base_results pr_results = Ok results →
  StronglySorted str_le (benchmark <$> results)
  ∧ NoDup (benchmark <$> results)
  ∧ (∀ names, names ≡ₚ benchmark <$> results → StronglySorted str_le names →
       names = benchmark <$> results)
  ∧ (∀ s, StronglySorted str_le (benchmark <$> filter (has_status s) results))
  ∧ (∀ str_float fmt_2f fmt_0f args,
       ∃ j rest, artifacts (report str_float fmt_2f fmt_0f args results)
                 = ("bench-results.json", JsonDoc j) :: rest
                 ∧ json_results j = results)
  ∧ (∀ str_float fmt_2f fmt_0f args,
       forallb encodable (map benchmark results) = true →
       ∃ j head summary reg_rows imp_rows,
         json_results j = results
         ∧ length head = 4%nat ∧ length summary = 3%nat
         ∧ Forall2 (λ r row, table_row fmt_2f fmt_0f (regression_change str_float) r
                             = inr row)
                   (filter (has_status REGRESSION) results) reg_rows
         ∧ Forall2 (λ r row, table_row fmt_2f fmt_0f (improvement_change str_float) r
                             = inr row)
                   (filter (has_status IMPROVEMENT) results) imp_rows
         ∧ report str_float fmt_2f fmt_0f args results
           = Finished
               [ ("bench-results.json", JsonDoc j);
                 ("bench-results.md",
                  Text (join newline
                          (head
                           ++ table_lines "### Regressions" reg_rows
                           ++ table_lines "### Improvements" imp_rows
                           ++ names_lines "**New benchmarks**: "
                                (filter (has_status NEW) results)
                           ++ names_lines "**Removed benchmarks**: "
                                (filter (has_status REMOVED) results)
                           ++ details_head
                           ++ map (all_results_row str_float fmt_2f fmt_0f) results
                           ++ [ ""; "</details>"; "" ])%list)) ]
               (summary
                ++ regressed_lines str_float (filter (has_status REGRESSION) results))%list).
Proof.
  intros Hc.
  assert (Hs : StronglySorted str_le (benchmark <$> results)).
  { rewrite (comparator_benchmarks _ _ _ _ Hc).
    apply StronglySorted_filter, StronglySorted_all_keys. }
  split; [exact Hs|]. split; [|split; [|split; [|split]]].
  - rewrite (comparator_benchmarks _ _ _ _ Hc). apply NoDup_filter, NoDup_all_keys.
  - intros names Hperm Hnames.
    by apply (StronglySorted_unique str_le).
  - intros s. by apply StronglySorted_fmap_filter.
  - intros str_float fmt_2f fmt_0f args. unfold report.
    destruct (table_rows _ _ _ (filter (has_status REGRESSION) results));
      [simpl; eauto|].
    destruct (table_rows _ _ _ (filter (has_status IMPROVEMENT) results));
      [simpl; eauto|].
    destruct (forallb encodable (map benchmark results)); simpl; eauto.
  - intros str_float fmt_2f fmt_0f args Henc.
    destruct (table_rows_both_present fmt_2f fmt_0f (regression_change str_float) _
                (comparator_both_present_rows _ _ _ _ REGRESSION Hc (or_introl eq_refl)))
      as [reg_rows Hreg].
    destruct (table_rows_both_present fmt_2f fmt_0f (improvement_change str_float) _
                (comparator_both_present_rows _ _ _ _ IMPROVEMENT Hc (or_intror eq_refl)))
      as [imp_rows Himp].
    pose proof (table_rows_Forall2 _ _ _ _ _ Hreg) as Freg.
    pose proof (table_rows_Forall2 _ _ _ _ _ Himp) as Fimp.
    eexists _, _, _, reg_rows, imp_rows.
    split; [|split; [|split; [|split; [exact Freg|split; [exact Fimp|]]]]]; cycle 3.
    + unfold report. rewrite Hreg, Himp, Henc. cbv beta iota zeta.
      rewrite (table_lines_of_rows _ _ _ "### Regressions" Freg).
      rewrite (table_lines_of_rows _ _ _ "### Improvements" Fimp).
      reflexivity.
    + reflexivity.
    + reflexivity.
    + reflexivity.
Qed.

Lemma comparator_sorted_by_key_witness :
  StronglySorted str_le ["log-graph/gitr"; "log/gitr"].
Proof.
  exact (proj1 (comparator_sorted_by_key 5 sample_log sample_log _
                  sample_log_results)).
Defined.

(** * A missing baseline *)

(** Claim C6 fails when the other load fails: here nothing was measured for
    the base, whose snapshot is empty, and the data file of the candidate
    is malformed; the run ends on that exception, and no error line names
    the base. *)
Lemma empty_base_malformed_candidate :
  find_baselines sample_pr_broken_tree "target/criterion" "main" = Ok ∅
  ∧ main no_digits no_digits no_digits sample_pr_broken_tree sample_args
    = Uncaught MalformedData [].
Proof. split; vm_compute; reflexivity. Qed.

(** Claim C6, as the code has it. Both baselines are loaded before either
    snapshot is tested. When a load returns an empty snapshot the run ends
    with a status that is not 0 and writes no file. If the base snapshot is
    empty and the candidate was loaded, the error line with the base name
    and the search root goes to standard error and the status is 1; if the
    base snapshot is not empty and the candidate snapshot is, the line has
    the candidate name. If the other load raises, the run ends on that
    exception instead, with no error line. When both snapshots are not
    empty the run never ends on [sys.exit]: it is the report of the
    comparator's results, or the comparator's exception. *)
Theorem main_empty_snapshot
    (str_float fmt_2f fmt_0f : float → string)
    (os_walk : string → list walk_entry) (args : Args) :
  let run := main str_float fmt_2f fmt_0f os_walk args in
  let load_base := find_baselines os_walk (criterion_dir args) (base args) in
  let load_pr := find_baselines os_walk (criterion_dir args) (pr args) in
  (load_base = Ok ∅ ∨ load_pr = Ok ∅ → exit_status run ≠ 0%Z ∧ artifacts run = [])
  ∧ (load_base = Ok ∅ →
       (∀ pr_results, load_pr = Ok pr_results →
          run = SysExit 1 ("ERROR: No base baseline '" ++ base args ++ "' found in "
                             ++ criterion_dir args))
       ∧ (∀ e, load_pr = Raise e → run = Uncaught e []))
  ∧ (load_pr = Ok ∅ →
       (∀ base_results, load_base = Ok base_results → base_results ≠ ∅ →
          run = SysExit 1 ("ERROR: No PR baseline '" ++ pr args ++ "' found in "
                             ++ criterion_dir args))
       ∧ (∀ e, load_base = Raise e → run = Uncaught e []))
  ∧ (∀ base_results pr_results,
       load_base = Ok base_results → load_pr = Ok pr_results →
       base_results ≠ ∅ → pr_results ≠ ∅ →
       (∀ code msg, run ≠ SysExit code msg)
       ∧ run = match comparator (threshold args) base_results pr_results with
               | Raise e => Uncaught e []
               | Ok results => report str_float fmt_2f fmt_0f args results
               end).
Proof.
  intros run load_base load_pr. subst run load_base load_pr. unfold main.
  destruct (find_baselines os_walk (criterion_dir args) (base args))
    as [base_results|eb];
    destruct (find_baselines os_walk (criterion_dir args) (pr args))
      as [pr_results|ep];
    [destruct (decide (base_results = ∅)) as [Hb|Hb];
       [|destruct (decide (pr_results = ∅)) as [Hp|Hp]]|..];
    repeat split; intros;
    repeat match goal with H : _ ∨ _ |- _ => destruct H end;
    simplify_eq/=; try done.
  match goal with
  | |- context [comparator ?t ?b ?p] => destruct (comparator t b p); [|done]
  end.
  apply report_not_SysExit.
Qed.

Lemma main_empty_snapshot_witness :
  main no_digits no_digits no_digits sample_tree sample_args_missing
  = SysExit 1 "ERROR: No PR baseline 'feature' found in target/criterion".
Proof.
  refine (proj1 (proj1 (proj2 (proj2 (main_empty_snapshot no_digits no_digits no_digits
            sample_tree sample_args_missing))) _) sample_base _ _).
  - vm_compute. reflexivity.
  - vm_compute. reflexivity.
  - intros H. apply (f_equal (λ m : gmap string float, m !! "status/gitr/small")) in H.
    vm_compute in H. discriminate.
Defined.
